(** * LinkedList: the user-defined record callbacks and the ASCII tokenizer

    A shallow embedding of [UserDefined.c] (the callbacks handed to the
    GLib doubly linked list) and of [FileIO.c] (the reader that extracts
    integers and words from a text file), followed by the properties of
    the repository's specification that they satisfy or break. *)

From Stdlib Require Import ZArith Ascii String List Bool Lia.
From stdpp Require Import base option list gmap strings pretty.

Local Open Scope Z_scope.

(** ** The parts of the C library the sources call *)

Module CLib.

(** [stdlib.h] *)
Definition EXIT_SUCCESS : Z := 0.
Definition EXIT_FAILURE : Z := 1.

(** An [int]: 32 bits, two's complement. C leaves signed overflow
    undefined; the result taken here is the one the usual machines give,
    the value wrapped around. *)
Definition int_wrap (z : Z) : Z := (z + 2 ^ 31) mod 2 ^ 32 - 2 ^ 31.

(** A character as the [int] that [getc] returns: the value of an
    [unsigned char], between 0 and 255. *)
Definition chr (a : ascii) : Z := Z.of_N (N_of_ascii a).

(** The conversion [(char) c] of an [int] to a character. *)
Definition to_char (c : Z) : ascii := ascii_of_N (Z.to_N (c mod 256)).

(** [ctype.h], in the C locale. *)
Definition isdigit (c : Z) : bool := (chr "0" <=? c) && (c <=? chr "9").
Definition isalpha (c : Z) : bool :=
  ((chr "A" <=? c) && (c <=? chr "Z")) || ((chr "a" <=? c) && (c <=? chr "z")).

(** [string.h]: a C string is modelled by its contents, the characters
    before the terminator, compared as unsigned characters. Only the sign
    of the result of [strcmp] is specified. *)
Fixpoint strcmp (s1 s2 : string) : Z :=
  match s1, s2 with
  | EmptyString, EmptyString => 0
  | EmptyString, String _ _ => -1
  | String _ _, EmptyString => 1
  | String c1 r1, String c2 r2 =>
      if Ascii.eqb c1 c2 then strcmp r1 r2
      else if chr c1 <? chr c2 then -1 else 1
  end.

(** *** Results *)

(** The result of code that can go wrong: a null or dangling pointer
    dereferenced, a block freed twice, an array written out of bounds. *)
Inductive res (A : Type) : Type :=
| Ok (a : A)
| Fault.
Arguments Ok {A} a.
Arguments Fault {A}.

Definition bind {A B : Type} (r : res A) (k : A -> res B) : res B :=
  match r with
  | Ok a => k a
  | Fault => Fault
  end.

(** *** Dynamic memory *)

Definition loc : Type := positive.

(** A pointer: [None] is [NULL]. *)
Definition ptr : Type := option loc.
Definition NULL : ptr := None.

(** What [malloc] and [strdup] hand out here: a [struct myData_] with its
    two fields, or a character array that holds a C string. *)
Inductive block : Type :=
| Node (number : Z) (theString : ptr)
| Chars (s : string).

(** The heap, and how many more blocks can be obtained before the
    allocator reports that there is no memory left. *)
Record mem : Type := mkMem { blocks : gmap positive block; room : nat }.

(** [malloc]: [NULL] when no memory can be obtained, a fresh block
    otherwise (its contents [init] stand for indeterminate bytes). *)
Definition malloc (m : mem) (init : block) : ptr * mem :=
  match room m with
  | O => (NULL, m)
  | S k =>
      let l := fresh (dom (blocks m)) in
      (Some l, mkMem (<[l := init]> (blocks m)) k)
  end.

(** [strdup]: [malloc] and copy. *)
Definition strdup (m : mem) (s : string) : ptr * mem := malloc m (Chars s).

(** [free]: a null pointer is ignored; the pointer must otherwise be one
    that was obtained and not yet released. *)
Definition free (m : mem) (p : ptr) : res mem :=
  match p with
  | None => Ok m
  | Some l =>
      match blocks m !! l with
      | Some _ => Ok (mkMem (delete l (blocks m)) (S (room m)))
      | None => Fault
      end
  end.

(** *** Input streams *)

(** A [FILE] open for reading: the characters not yet read (a character
    pushed back is the first of them) and the end-of-file indicator. *)
Record FILE : Type := mkFILE { unread : list ascii; eof_ind : bool }.

Definition EOF : Z := -1.

Definition fopen (contents : string) : FILE :=
  mkFILE (list_ascii_of_string contents) false.

Definition feof (fp : FILE) : bool := eof_ind fp.

(** [getc]: the next character, or [EOF] with the indicator set when
    there is none or the indicator is set already. *)
Definition getc (fp : FILE) : Z * FILE :=
  if eof_ind fp then (EOF, fp)
  else match unread fp with
       | [] => (EOF, mkFILE [] true)
       | a :: rest => (chr a, mkFILE rest false)
       end.

(** [ungetc]: pushes a character back and clears the indicator; pushing
    [EOF] changes nothing. *)
Definition ungetc (c : Z) (fp : FILE) : FILE :=
  if c =? EOF then fp else mkFILE (to_char c :: unread fp) false.

(** *** Standard output *)

(** [printf ("Data Element: %d %s\n", n, s)] appended to what was
    written so far. *)
Definition printf_data_element (out : string) (n : Z) (s : string) : string :=
  out +:+ "Data Element: " +:+ pretty n +:+ " " +:+ s +:+ String "010" EmptyString.

End CLib.

(** ** UserDefined.c: the callbacks for the user-defined record *)

Module UserDefined.
Import CLib.

#[global] Instance res_bind : MBind res :=
  fun A B (k : A -> res B) (r : res A) => bind r k.

(** [enum order] *)
Definition LESS : Z := -1.
Definition EQUAL : Z := 0.
Definition GREATER : Z := 1.
Definition NOTEQUAL : Z := 2.

(** [enum theKey] *)
Definition INT : Z := 1.
Definition STR : Z := 2.
Definition SINGLEINT : Z := 3.
Definition SINGLESTR : Z := 4.

(** The record a valid [node_p] points to: its number, and the contents
    of the string its [theString] field points to. *)
Record myData : Type := mkData { number : Z; theString : string }.

(** What the second, untyped argument of [CompareItemsWithKey] points
    to: a record, a string or an [int]. *)
Inductive operand : Type :=
| ToItem (d : myData)
| ToStr (s : string)
| ToInt (n : Z).

(** A [GList] is seen through the data pointers of its nodes, first to
    last; the null list is the empty one. *)
Definition GList : Type := list ptr.

(** Reads the record at [l]: the [struct] and the string it owns. *)
Definition load_item (m : mem) (l : loc) : res myData :=
  match blocks m !! l with
  | Some (Node n (Some q)) =>
      match blocks m !! q with
      | Some (Chars s) => Ok (mkData n s)
      | _ => Fault
      end
  | _ => Fault
  end.

(** [p->number = n] *)
Definition set_number (m : mem) (p : ptr) (n : Z) : res mem :=
  match p with
  | None => Fault
  | Some l =>
      match blocks m !! l with
      | Some (Node _ s) => Ok (mkMem (<[l := Node n s]> (blocks m)) (room m))
      | _ => Fault
      end
  end.

(** [p->theString = s] *)
Definition set_theString (m : mem) (p : ptr) (s : ptr) : res mem :=
  match p with
  | None => Fault
  | Some l =>
      match blocks m !! l with
      | Some (Node n _) => Ok (mkMem (<[l := Node n s]> (blocks m)) (room m))
      | _ => Fault
      end
  end.

Definition PrintItem (m : mem) (out : string) (data_p : ptr) : res (Z * string) :=
  match data_p with
  | None => Ok (EXIT_FAILURE, out)
  | Some l =>
      d ← load_item m l;
      Ok (EXIT_SUCCESS, printf_data_element out (number d) (theString d))
  end.

(** The [while (aux != NULL)] loop of [PrintList]. *)
Fixpoint PrintList_loop (m : mem) (out : string) (aux : GList) : res (Z * string) :=
  match aux with
  | [] => Ok (EXIT_SUCCESS, out)
  | data :: next =>
      '(r, out') ← PrintItem m out data;
      if r =? EXIT_FAILURE then Ok (EXIT_FAILURE, out')
      else PrintList_loop m out' next
  end.

Definition PrintList (m : mem) (out : string) (myList_p : GList) : res (Z * string) :=
  match myList_p with
  | [] => Ok (EXIT_FAILURE, out)
  | _ :: _ => PrintList_loop m out myList_p
  end.

(** [theString] is the contents of the caller's string. *)
Definition NewItem (m : mem) (theNumber : Z) (theString : string) : res (ptr * mem) :=
  let '(newNode, m1) := malloc m (Node 0 NULL) in
  m2 ← set_number m1 newNode theNumber;
  let '(copy, m3) := strdup m2 theString in
  m4 ← set_theString m3 newNode copy;
  Ok (newNode, m4).

Definition FreeItem (m : mem) (data_p : ptr) : res (Z * mem) :=
  match data_p with
  | None => Ok (EXIT_FAILURE, m)
  | Some _ =>
      m' ← free m data_p;
      Ok (EXIT_SUCCESS, m')
  end.

(** The [for (l = theList_p; l != NULL; l = l->next)] loop of
    [DestroyList]. *)
Fixpoint DestroyList_loop (m : mem) (l : GList) : res (Z * mem) :=
  match l with
  | [] => Ok (EXIT_SUCCESS, m)
  | node :: next =>
      '(r, m') ← FreeItem m node;
      if r =? EXIT_FAILURE then Ok (EXIT_FAILURE, m')
      else DestroyList_loop m' next
  end.

Definition DestroyList (m : mem) (theList_p : GList) : res (Z * mem) :=
  match theList_p with
  | _ :: _ => DestroyList_loop m theList_p
  | [] => Ok (EXIT_FAILURE, m)
  end.

Definition CompareItems (item1_p item2_p : myData) : Z :=
  if number item1_p <? number item2_p then LESS
  else if number item1_p >? number item2_p then GREATER
  else EQUAL.

(** A [key] that says the second argument is a record, a string or an
    [int] when it points to something else makes the access undefined. *)
Definition CompareItemsWithKey (item1_p : myData) (item2_p : operand) (key : Z) : res Z :=
  if key =? INT then
    match item2_p with
    | ToItem d2 => Ok (CompareItems item1_p d2)
    | _ => Fault
    end
  else if key =? STR then
    match item2_p with
    | ToItem d2 =>
        if strcmp (theString item1_p) (theString d2) =? 0 then Ok EQUAL
        else Ok NOTEQUAL
    | _ => Fault
    end
  else if key =? SINGLESTR then
    match item2_p with
    | ToStr s =>
        if strcmp (theString item1_p) s =? 0 then Ok EQUAL
        else Ok NOTEQUAL
    | _ => Fault
    end
  else if key =? SINGLEINT then
    match item2_p with
    | ToInt n =>
        if number item1_p =? n then Ok EQUAL
        else Ok NOTEQUAL
    | _ => Fault
    end
  else Ok NOTEQUAL.

(** [p->number] for the first, untyped argument of the comparison when it
    is reached through a list node. *)
Definition get_number (m : mem) (p : ptr) : res Z :=
  match p with
  | None => Fault
  | Some l =>
      match blocks m !! l with
      | Some (Node n _) => Ok n
      | _ => Fault
      end
  end.

(** The string [p->theString] points to, as [strcmp] reads it. *)
Definition get_theString (m : mem) (p : ptr) : res string :=
  match p with
  | None => Fault
  | Some l =>
      match blocks m !! l with
      | Some (Node _ (Some q)) =>
          match blocks m !! q with
          | Some (Chars s) => Ok s
          | _ => Fault
          end
      | _ => Fault
      end
  end.

(** [CompareItemsWithKey (l->data, value_p, key)] as [FindInList] calls
    it: the first argument is the data pointer of a list node, and each
    key reads through it only the field that its case of the switch
    reads. *)
Definition CompareItemsWithKey_ptr (m : mem) (item1_p : ptr) (item2_p : operand) (key : Z)
  : res Z :=
  if key =? INT then
    match item2_p with
    | ToItem d2 =>
        n1 ← get_number m item1_p;
        Ok (if n1 <? number d2 then LESS
            else if n1 >? number d2 then GREATER
            else EQUAL)
    | _ => Fault
    end
  else if key =? STR then
    match item2_p with
    | ToItem d2 =>
        s1 ← get_theString m item1_p;
        if strcmp s1 (theString d2) =? 0 then Ok EQUAL else Ok NOTEQUAL
    | _ => Fault
    end
  else if key =? SINGLESTR then
    match item2_p with
    | ToStr s =>
        s1 ← get_theString m item1_p;
        if strcmp s1 s =? 0 then Ok EQUAL else Ok NOTEQUAL
    | _ => Fault
    end
  else if key =? SINGLEINT then
    match item2_p with
    | ToInt n =>
        n1 ← get_number m item1_p;
        if n1 =? n then Ok EQUAL else Ok NOTEQUAL
    | _ => Fault
    end
  else Ok NOTEQUAL.

(** The [for] loop of [CopyList]; [g_list_append] adds the new node at
    the end of the copy. *)
Fixpoint CopyList_loop (m : mem) (l : GList) (theCopy : GList) : res (GList * mem) :=
  match l with
  | [] => Ok (theCopy, m)
  | node :: next =>
      match node with
      | None => Fault
      | Some a =>
          d ← load_item m a;
          '(aNode_p, m') ← NewItem m (number d) (theString d);
          CopyList_loop m' next (theCopy ++ [aNode_p])
      end
  end.

Definition CopyList (m : mem) (inputList : GList) : res (GList * mem) :=
  match inputList with
  | _ :: _ => CopyList_loop m inputList []
  | [] => Ok ([], m)
  end.

(** [FindInList] returns the node it stops at, seen as the list from
    that node on, or the null list. *)
Fixpoint FindInList (m : mem) (myList_p : GList) (value_p : operand) (key : Z)
  : res GList :=
  match myList_p with
  | [] => Ok []
  | data :: next =>
      r ← CompareItemsWithKey_ptr m data value_p key;
      if r =? 0 then Ok myList_p
      else FindInList m next value_p key
  end.

End UserDefined.

(** ** FileIO.c: reading integers and words from a text file *)

Module FileIO.
Import CLib.

(** FileIO.h *)
Definition BUFSIZE : Z := 256.

(** The loops below take [fuel], the number of iterations they may still
    run; [None] says that it ran out before the loop ended. *)

(** [do { c = getc (fp); } while (c != '\n');] *)
Fixpoint skip_comment (fuel : nat) (fp : FILE) : option (Z * FILE) :=
  match fuel with
  | O => None
  | S k =>
      let '(c, fp1) := getc fp in
      if negb (c =? chr "010") then skip_comment k fp1
      else Some (c, fp1)
  end.

(** The first loop of [GetInt]: returns the character it stopped at,
    the sign and the stream. *)
Fixpoint GetInt_skip (fuel : nat) (sign : Z) (fp : FILE) : option (Z * Z * FILE) :=
  match fuel with
  | O => None
  | S k =>
      let '(c, fp1) := getc fp in
      match (if c =? chr "#" then skip_comment k fp1 else Some (c, fp1)) with
      | None => None
      | Some (c, fp2) =>
          let sign := if c =? chr "-" then -1 else sign in
          if negb (isdigit c) && negb (feof fp2) then GetInt_skip k sign fp2
          else Some (c, sign, fp2)
      end
  end.

(** [while (isdigit (c) && !feof(fp)) { i = (i*10) + (c - '0'); c = getc (fp); }] *)
Fixpoint GetInt_digits (fuel : nat) (c i : Z) (fp : FILE) : option (Z * Z * FILE) :=
  match fuel with
  | O => None
  | S k =>
      if isdigit c && negb (feof fp) then
        let i := int_wrap (i * 10 + (c - chr "0")) in
        let '(c, fp) := getc fp in
        GetInt_digits k c i fp
      else Some (c, i, fp)
  end.

(** The look-ahead that ends both functions:
    [c = getc (fp); if (c != EOF) ungetc (c, fp);] *)
Definition peek (fp : FILE) : FILE :=
  let '(c, fp1) := getc fp in
  if negb (c =? EOF) then ungetc c fp1 else fp1.

Definition GetInt (fuel : nat) (fp : FILE) : option (Z * FILE) :=
  match GetInt_skip fuel 1 fp with
  | None => None
  | Some (c, sign, fp1) =>
      if feof fp1 then Some (EOF, fp1)
      else
        match GetInt_digits fuel c 0 fp1 with
        | None => None
        | Some (_, i, fp2) => Some (int_wrap (i * sign), peek fp2)
        end
  end.

(** The first loop of [GetString]. *)
Fixpoint GetString_skip (fuel : nat) (fp : FILE) : option (Z * FILE) :=
  match fuel with
  | O => None
  | S k =>
      let '(c, fp1) := getc fp in
      match (if c =? chr "#" then skip_comment k fp1 else Some (c, fp1)) with
      | None => None
      | Some (c, fp2) =>
          if negb (isalpha c) && negb (feof fp2) then GetString_skip k fp2
          else Some (c, fp2)
      end
  end.

(** [buffer[i] = v] for the array [char buffer[BUFSIZE]]: a write
    outside the array is a fault. *)
Definition buffer_store (buffer : list ascii) (i : Z) (v : ascii) : res (list ascii) :=
  if (0 <=? i) && (i <? Z.of_nat (length buffer)) then
    Ok (<[Z.to_nat i := v]> buffer)
  else Fault.

(** [while (isalpha (c) && !feof(fp) && (i < BUFSIZE))
      { buffer[i] = (char) c; i++; c = getc (fp); }] *)
Fixpoint GetString_fill (fuel : nat) (c i : Z) (buffer : list ascii) (fp : FILE)
  : option (res (Z * Z * list ascii * FILE)) :=
  match fuel with
  | O => None
  | S k =>
      if isalpha c && negb (feof fp) && (i <? BUFSIZE) then
        match buffer_store buffer i (to_char c) with
        | Fault => Some Fault
        | Ok buffer' =>
            let i := i + 1 in
            let '(c, fp) := getc fp in
            GetString_fill k c i buffer' fp
        end
      else Some (Ok (c, i, buffer, fp))
  end.

(** The C string an array holds: its characters before the first
    terminator. *)
Fixpoint c_string (buffer : list ascii) : string :=
  match buffer with
  | [] => EmptyString
  | a :: rest => if Ascii.eqb a "000" then EmptyString else String a (c_string rest)
  end.

(** The array [buffer] starts with indeterminate contents; [strdup]
    reads no element of it that was not written before. *)
Definition GetString (fuel : nat) (m : mem) (fp : FILE) : option (res (ptr * mem * FILE)) :=
  let buffer := repeat "000"%char (Z.to_nat BUFSIZE) in
  match GetString_skip fuel fp with
  | None => None
  | Some (c, fp1) =>
      if feof fp1 then Some (Ok (NULL, m, fp1))
      else
        match GetString_fill fuel c 0 buffer fp1 with
        | None => None
        | Some Fault => Some Fault
        | Some (Ok (_, i, buffer1, fp2)) =>
            match buffer_store buffer1 i "000" with
            | Fault => Some Fault
            | Ok buffer2 =>
                let fp3 := peek fp2 in
                let '(p, m1) := strdup m (c_string buffer2) in
                Some (Ok (p, m1, fp3))
            end
        end
  end.

End FileIO.

(** ** listTest.c: the loop of [main] that reads the test data *)

Module ListTest.
Import CLib UserDefined FileIO.

(** The contents of the string [p] points to, as [strdup (p)] reads it
    in [NewItem (number, string)]. *)
Definition get_chars (m : mem) (p : ptr) : res string :=
  match p with
  | None => Fault
  | Some l =>
      match blocks m !! l with
      | Some (Chars s) => Ok s
      | _ => Fault
      end
  end.

(** [while (!feof(fp)) { number = GetInt(fp); string = GetString(fp);
      aNode_p = NewItem(number, string);
      theList_p = g_list_append(theList_p, aNode_p); }]
    The result is the list, the memory and the stream when the loop
    ends. *)
Fixpoint read_loop (fuel : nat) (m : mem) (fp : FILE) (theList_p : GList)
  : option (res (GList * mem * FILE)) :=
  match fuel with
  | O => None
  | S k =>
      if negb (feof fp) then
        match GetInt k fp with
        | None => None
        | Some (number, fp1) =>
            match GetString k m fp1 with
            | None => None
            | Some Fault => Some Fault
            | Some (Ok (string, m1, fp2)) =>
                match get_chars m1 string with
                | Fault => Some Fault
                | Ok s =>
                    match NewItem m1 number s with
                    | Fault => Some Fault
                    | Ok (aNode_p, m2) =>
                        read_loop k m2 fp2 (theList_p ++ [aNode_p])
                    end
                end
            end
        end
      else Some (Ok (theList_p, m, fp))
  end.

End ListTest.

Import CLib UserDefined FileIO.
Import ListTest.

(** ** Vocabulary of the statements *)

(** What standard output holds after the records [ds] were printed in
    order, starting from [out]. *)
Definition print_all (out : string) (ds : list myData) : string :=
  fold_left (fun o d => printf_data_element o (number d) (theString d)) ds out.

(** The memory after the blocks at [ls] were released in order. *)
Definition release_all (m : mem) (ls : list loc) : mem :=
  fold_left (fun m l => mkMem (delete l (blocks m)) (S (room m))) ls m.

(** [GetInt] found a digit: its first loop ended before the end of the
    file, so that it goes on to convert a number. *)
Definition reads_integer (fuel : nat) (fp : FILE) : bool :=
  match GetInt_skip fuel 1 fp with
  | Some (_, _, fp1) => negb (feof fp1)
  | None => false
  end.

(** The value of a run of digits as the conversion loop of [GetInt]
    accumulates it. *)
Definition digit_step (i : Z) (a : ascii) : Z :=
  int_wrap (i * 10 + (chr a - chr "0")).

Definition decimal (ds : list ascii) : Z := fold_left digit_step ds 0.

(** Where the two reads that follow the last digit leave a stream whose
    unread characters were [rest]: the first of them is gone. *)
Definition after_number (rest : list ascii) : FILE :=
  mkFILE (tl rest) (Nat.leb (length rest) 1).

(** A character that the first loop of [GetInt] passes over without
    entering a comment. *)
Definition passed_over (a : ascii) : Prop :=
  isdigit (chr a) = false /\ a <> "#"%char.

(** The unread characters [rest] do not go on with a digit. *)
Definition ends_number (rest : list ascii) : Prop :=
  match rest with
  | [] => True
  | d :: _ => isdigit (chr d) = false
  end.

(** A character that neither [GetInt] nor [GetString] stops at or takes
    for the start of a comment. *)
Definition blank (a : ascii) : Prop :=
  isdigit (chr a) = false /\ isalpha (chr a) = false /\ a <> "#"%char.

(** Every comment of the text [l] is closed: a newline follows each
    [#]. *)
Fixpoint comments_closed (l : list ascii) : Prop :=
  match l with
  | [] => True
  | a :: r => (a = "#"%char -> "010"%char ∈ r) /\ comments_closed r
  end.

(** The number that a run of digits denotes in base ten. *)
Definition digits_value (ds : list ascii) : Z :=
  fold_left (fun v a => v * 10 + (chr a - chr "0")) ds 0.

(** A character that the first loop of [GetString] passes over without
    entering a comment. *)
Definition passed_by_word (a : ascii) : Prop :=
  isalpha (chr a) = false /\ a <> "#"%char.

(** The unread characters [rest] do not go on with a letter. *)
Definition ends_word (rest : list ascii) : Prop :=
  match rest with
  | [] => True
  | d :: _ => isalpha (chr d) = false
  end.

(** ** Comparing records *)

Lemma strcmp_refl (s : string) : strcmp s s = 0.
Proof.
  induction s as [|c s IH]; simpl; [reflexivity|].
  now rewrite Ascii.eqb_refl.
Qed.

Lemma strcmp_zero (s1 s2 : string) : strcmp s1 s2 = 0 <-> s1 = s2.
Proof.
  split; [|intros ->; apply strcmp_refl].
  revert s2; induction s1 as [|c1 r1 IH]; intros [|c2 r2]; simpl; try easy.
  destruct (Ascii.eqb_spec c1 c2) as [->|Hne].
  - intros H; f_equal; auto.
  - destruct (chr c1 <? chr c2); discriminate.
Qed.

Lemma strcmp_nonzero (s1 s2 : string) : s1 <> s2 -> (strcmp s1 s2 =? 0) = false.
Proof.
  intros Hne. apply Z.eqb_neq. now rewrite strcmp_zero.
Qed.

Lemma CompareItems_LESS (a b : myData) : CompareItems a b = LESS <-> number a < number b.
Proof.
  unfold CompareItems, LESS, GREATER, EQUAL.
  destruct (Z.ltb_spec (number a) (number b)); [easy|].
  destruct (Z.gtb_spec (number a) (number b)); split; (discriminate || lia).
Qed.

Lemma CompareItems_GREATER (a b : myData) : CompareItems a b = GREATER <-> number a > number b.
Proof.
  unfold CompareItems, LESS, GREATER, EQUAL.
  destruct (Z.ltb_spec (number a) (number b)); [split; (discriminate || lia)|].
  destruct (Z.gtb_spec (number a) (number b)); split; (discriminate || lia || reflexivity).
Qed.

Lemma CompareItems_EQUAL (a b : myData) : CompareItems a b = EQUAL <-> number a = number b.
Proof.
  unfold CompareItems, LESS, GREATER, EQUAL.
  destruct (Z.ltb_spec (number a) (number b)); [split; (discriminate || lia)|].
  destruct (Z.gtb_spec (number a) (number b)); split; (discriminate || lia || reflexivity).
Qed.

Lemma CompareItems_cases (a b : myData) :
  CompareItems a b = LESS \/ CompareItems a b = EQUAL \/ CompareItems a b = GREATER.
Proof.
  unfold CompareItems.
  destruct (number a <? number b); [now left|].
  destruct (number a >? number b); [now right; right | now right; left].
Qed.

(** C2: [CompareItems] orders records by their number alone, ascending:
    LESS exactly when the first number is smaller, GREATER exactly when it
    is larger, EQUAL exactly when the numbers agree, whatever the strings;
    every pair is related, a record is EQUAL to itself, swapping the
    arguments swaps LESS and GREATER and keeps EQUAL, two records neither
    of which is GREATER than the other are EQUAL and have the same number,
    and LESS, EQUAL and "not GREATER" are transitive. *)
Theorem CompareItems_total_order :
  (forall a b, CompareItems a b = LESS <-> number a < number b) /\
  (forall a b, CompareItems a b = GREATER <-> number a > number b) /\
  (forall a b, CompareItems a b = EQUAL <-> number a = number b) /\
  (forall n s1 s2, CompareItems (mkData n s1) (mkData n s2) = EQUAL) /\
  (forall a b, CompareItems a b = LESS \/ CompareItems a b = EQUAL \/
               CompareItems a b = GREATER) /\
  (forall a, CompareItems a a = EQUAL) /\
  (forall a b, CompareItems a b = LESS <-> CompareItems b a = GREATER) /\
  (forall a b, CompareItems a b = EQUAL <-> CompareItems b a = EQUAL) /\
  (forall a b, CompareItems a b <> GREATER -> CompareItems b a <> GREATER ->
               CompareItems a b = EQUAL /\ number a = number b) /\
  (forall a b c, CompareItems a b = LESS -> CompareItems b c = LESS ->
                 CompareItems a c = LESS) /\
  (forall a b c, CompareItems a b = EQUAL -> CompareItems b c = EQUAL ->
                 CompareItems a c = EQUAL) /\
  (forall a b c, CompareItems a b <> GREATER -> CompareItems b c <> GREATER ->
                 CompareItems a c <> GREATER).
Proof.
  repeat apply conj.
  - apply CompareItems_LESS.
  - apply CompareItems_GREATER.
  - apply CompareItems_EQUAL.
  - intros n s1 s2. now apply CompareItems_EQUAL.
  - apply CompareItems_cases.
  - intros a. now apply CompareItems_EQUAL.
  - intros a b. rewrite CompareItems_LESS, CompareItems_GREATER. lia.
  - intros a b. rewrite !CompareItems_EQUAL. lia.
  - intros a b. rewrite !CompareItems_GREATER, CompareItems_EQUAL. lia.
  - intros a b c. rewrite !CompareItems_LESS. lia.
  - intros a b c. rewrite !CompareItems_EQUAL. lia.
  - intros a b c. rewrite !CompareItems_GREATER. lia.
Qed.

(** C1: [CompareItemsWithKey] with key STR returns EQUAL when the two
    strings are the same and NOTEQUAL otherwise, never LESS or GREATER;
    with key SINGLEINT it returns EQUAL exactly when the number is the
    integer pointed to, and NOTEQUAL otherwise; with key SINGLESTR it
    returns EQUAL exactly when the string is the string pointed to, and
    NOTEQUAL otherwise; with key INT it returns what [CompareItems]
    returns; with any other key it returns NOTEQUAL. *)
Theorem CompareItemsWithKey_dispatch :
  (forall a b,
      (theString a = theString b ->
       CompareItemsWithKey a (ToItem b) STR = Ok EQUAL) /\
      (theString a <> theString b ->
       CompareItemsWithKey a (ToItem b) STR = Ok NOTEQUAL) /\
      CompareItemsWithKey a (ToItem b) STR <> Ok LESS /\
      CompareItemsWithKey a (ToItem b) STR <> Ok GREATER) /\
  (forall a n,
      (CompareItemsWithKey a (ToInt n) SINGLEINT = Ok EQUAL <-> number a = n) /\
      (number a <> n -> CompareItemsWithKey a (ToInt n) SINGLEINT = Ok NOTEQUAL)) /\
  (forall a s,
      (CompareItemsWithKey a (ToStr s) SINGLESTR = Ok EQUAL <-> theString a = s) /\
      (theString a <> s -> CompareItemsWithKey a (ToStr s) SINGLESTR = Ok NOTEQUAL)) /\
  (forall a b, CompareItemsWithKey a (ToItem b) INT = Ok (CompareItems a b)) /\
  (forall a x key,
      key <> INT -> key <> STR -> key <> SINGLEINT -> key <> SINGLESTR ->
      CompareItemsWithKey a x key = Ok NOTEQUAL).
Proof.
  split; [|split; [|split; [|split]]].
  - intros a b. unfold CompareItemsWithKey. simpl.
    destruct (string_dec (theString a) (theString b)) as [E|E].
    + rewrite E, strcmp_refl. simpl. repeat split; congruence || discriminate.
    + rewrite (strcmp_nonzero _ _ E). repeat split; congruence || discriminate.
  - intros a n. unfold CompareItemsWithKey. simpl.
    destruct (Z.eqb_spec (number a) n) as [E|E]; repeat split;
      intros; congruence || discriminate.
  - intros a s. unfold CompareItemsWithKey. simpl.
    destruct (string_dec (theString a) s) as [E|E].
    + rewrite E, strcmp_refl. simpl. repeat split; congruence || discriminate.
    + rewrite (strcmp_nonzero _ _ E). repeat split; intros; congruence || discriminate.
  - reflexivity.
  - intros a x key H1 H2 H3 H4. unfold CompareItemsWithKey.
    apply Z.eqb_neq in H1, H2, H3, H4. now rewrite H1, H2, H3, H4.
Qed.

(** ** Creating and releasing records *)

Lemma fresh_unused (bs : gmap positive block) : bs !! fresh (dom bs) = None.
Proof. apply not_elem_of_dom, is_fresh. Qed.

Lemma malloc_some (m : mem) (init : block) (k : nat) :
  room m = S k ->
  exists l, blocks m !! l = None /\
            malloc m init = (Some l, mkMem (<[l := init]> (blocks m)) k).
Proof.
  intros H. exists (fresh (dom (blocks m))). split; [apply fresh_unused|].
  unfold malloc. now rewrite H.
Qed.

Lemma malloc_null (m : mem) (init : block) :
  room m = O -> malloc m init = (NULL, m).
Proof. intros H. unfold malloc. now rewrite H. Qed.

(** What [NewItem] does when both allocations succeed. *)
Lemma NewItem_room2 (m : mem) (n : Z) (s : string) (k : nat) :
  room m = S (S k) ->
  exists l q,
    blocks m !! l = None /\ blocks m !! q = None /\ l <> q /\
    NewItem m n s =
      Ok (Some l, mkMem (<[l := Node n (Some q)]> (<[q := Chars s]> (blocks m))) k).
Proof.
  intros Hroom.
  destruct (malloc_some m (Node 0 NULL) _ Hroom) as (l & Hl & E1).
  destruct (malloc_some (mkMem (<[l := Node n NULL]> (blocks m)) (S k))
              (Chars s) k eq_refl) as (q & Hq & E2).
  cbn [blocks] in Hq, E2.
  apply lookup_insert_None in Hq as [Hq Hlq].
  exists l, q. repeat split; try assumption.
  unfold NewItem. rewrite E1.
  cbn [set_number mbind res_bind bind blocks room].
  rewrite lookup_insert_eq.
  cbn [mbind res_bind bind blocks room].
  rewrite insert_insert_eq.
  unfold strdup. rewrite E2.
  cbn [set_theString mbind res_bind bind blocks room].
  rewrite lookup_insert_ne by congruence.
  rewrite lookup_insert_eq.
  cbn [mbind res_bind bind].
  do 3 f_equal.
  rewrite (insert_insert_ne _ q l) by congruence.
  now rewrite insert_insert_eq.
Qed.

(** C4: [NewItem] checks neither allocation. When [malloc] returns NULL
    the assignment to [newNode->number] goes through the null pointer;
    when [malloc] succeeds and [strdup] returns NULL the record is returned
    with a null [theString], so it cannot even be read back. Only when both
    succeed is the record complete: its number is the input and its
    string a copy of the input in a block of its own. *)
Theorem NewItem_unchecked_allocation :
  (forall m n s, room m = 0%nat -> NewItem m n s = Fault) /\
  (forall m n s, room m = 1%nat ->
     exists l,
       blocks m !! l = None /\
       NewItem m n s = Ok (Some l, mkMem (<[l := Node n NULL]> (blocks m)) 0) /\
       load_item (mkMem (<[l := Node n NULL]> (blocks m)) 0) l = Fault) /\
  (forall m n s, (2 <= room m)%nat ->
     exists l m', NewItem m n s = Ok (Some l, m') /\
                  blocks m !! l = None /\
                  load_item m' l = Ok (mkData n s)).
Proof.
  repeat apply conj.
  - intros m n s H. unfold NewItem. now rewrite (malloc_null _ _ H).
  - intros m n s H.
    destruct (malloc_some m (Node 0 NULL) _ H) as (l & Hl & E).
    exists l. split; [assumption|].
    unfold NewItem. rewrite E.
    cbn [set_number mbind res_bind bind blocks room].
    rewrite lookup_insert_eq.
    cbn [mbind res_bind bind blocks room].
    rewrite insert_insert_eq.
    unfold strdup. rewrite malloc_null by reflexivity.
    cbn [set_theString mbind res_bind bind blocks room].
    rewrite lookup_insert_eq.
    cbn [mbind res_bind bind].
    rewrite insert_insert_eq. split; [reflexivity|].
    unfold load_item. cbn [blocks]. now rewrite lookup_insert_eq.
  - intros m n s H.
    destruct (room m) as [|[|k]] eqn:Hroom; [lia|lia|].
    destruct (NewItem_room2 m n s k Hroom) as (l & q & Hl & Hq & Hlq & E).
    exists l. eexists. split; [exact E|]. split; [assumption|].
    unfold load_item. cbn [blocks].
    rewrite lookup_insert_eq.
    rewrite lookup_insert_ne by congruence.
    now rewrite lookup_insert_eq.
Qed.

(** C3: [FreeItem] releases the [struct] only. After [NewItem] and
    [FreeItem] the memory is the one before [NewItem] plus the block that
    holds the copy of the string, which nothing points to any more. *)
Theorem FreeItem_keeps_string (m : mem) (n : Z) (s : string) (k : nat) :
  room m = S (S k) ->
  exists l q m1 m2,
    NewItem m n s = Ok (Some l, m1) /\
    blocks m1 !! l = Some (Node n (Some q)) /\
    blocks m1 !! q = Some (Chars s) /\
    FreeItem m1 (Some l) = Ok (EXIT_SUCCESS, m2) /\
    blocks m !! q = None /\
    blocks m2 = <[q := Chars s]> (blocks m) /\
    room m2 = S k.
Proof.
  intros Hroom.
  destruct (NewItem_room2 m n s k Hroom) as (l & q & Hl & Hq & Hlq & E).
  exists l, q. do 2 eexists. split; [exact E|].
  cbn [blocks room FreeItem free mbind res_bind bind].
  rewrite lookup_insert_eq.
  rewrite lookup_insert_ne by congruence.
  rewrite lookup_insert_eq.
  repeat split; try assumption.
  cbn [blocks]. rewrite delete_insert_eq.
  apply delete_id. now rewrite lookup_insert_ne by congruence.
Qed.

Lemma FreeItem_keeps_string_example :
  exists l q m1 m2,
    NewItem (mkMem ∅ 2) 13 "Hello" = Ok (Some l, m1) /\
    blocks m1 !! l = Some (Node 13 (Some q)) /\
    blocks m1 !! q = Some (Chars "Hello") /\
    FreeItem m1 (Some l) = Ok (EXIT_SUCCESS, m2) /\
    (∅ : gmap positive block) !! q = None /\
    blocks m2 = <[q := Chars "Hello"]> ∅ /\
    room m2 = 1%nat.
Proof. exact (FreeItem_keeps_string (mkMem ∅ 2) 13 "Hello" 0 eq_refl). Defined.

(** ** Printing and destroying a whole list *)

Lemma PrintItem_loaded (m : mem) (out : string) (l : loc) (d : myData) :
  load_item m l = Ok d ->
  PrintItem m out (Some l) =
    Ok (EXIT_SUCCESS, printf_data_element out (number d) (theString d)).
Proof. intros H. unfold PrintItem. now rewrite H. Qed.

(** One turn of a list loop whose callback returned EXIT_SUCCESS. *)
Ltac callback_succeeded :=
  cbn [mbind res_bind bind];
  change (EXIT_SUCCESS =? EXIT_FAILURE) with false;
  cbn iota.

Lemma PrintList_loop_all (m : mem) (ls : list loc) (ds : list myData) :
  Forall2 (fun l d => load_item m l = Ok d) ls ds ->
  forall out,
    PrintList_loop m out (Some <$> ls) = Ok (EXIT_SUCCESS, print_all out ds).
Proof.
  induction 1 as [|l d ls ds Hl _ IH]; intros out; [reflexivity|].
  cbn [fmap list_fmap PrintList_loop].
  rewrite (PrintItem_loaded _ _ _ _ Hl).
  callback_succeeded. apply IH.
Qed.

Lemma PrintList_loop_stops (m : mem) (ls : list loc) (ds : list myData) (post : GList) :
  Forall2 (fun l d => load_item m l = Ok d) ls ds ->
  forall out,
    PrintList_loop m out ((Some <$> ls) ++ NULL :: post) =
      Ok (EXIT_FAILURE, print_all out ds).
Proof.
  induction 1 as [|l d ls ds Hl _ IH]; intros out; [reflexivity|].
  cbn [fmap list_fmap app PrintList_loop].
  rewrite (PrintItem_loaded _ _ _ _ Hl).
  callback_succeeded. apply IH.
Qed.

Lemma FreeItem_allocated (m : mem) (l : loc) :
  is_Some (blocks m !! l) ->
  FreeItem m (Some l) = Ok (EXIT_SUCCESS, mkMem (delete l (blocks m)) (S (room m))).
Proof. intros [b Hb]. unfold FreeItem, free. now rewrite Hb. Qed.

Lemma still_allocated (m : mem) (l : loc) (ls : list loc) :
  l ∉ ls ->
  Forall (fun l' => is_Some (blocks m !! l')) ls ->
  Forall (fun l' => is_Some (blocks (mkMem (delete l (blocks m)) (S (room m))) !! l')) ls.
Proof.
  intros Hnotin Hall. apply Forall_forall. intros l' Hin.
  rewrite Forall_forall in Hall. cbn [blocks].
  rewrite lookup_delete_ne; [now apply Hall|].
  intros ->. now apply Hnotin.
Qed.

Lemma DestroyList_loop_all (ls : list loc) :
  NoDup ls ->
  forall m,
    Forall (fun l => is_Some (blocks m !! l)) ls ->
    DestroyList_loop m (Some <$> ls) = Ok (EXIT_SUCCESS, release_all m ls).
Proof.
  induction 1 as [|l ls Hnotin _ IH]; intros m Hall; [reflexivity|].
  apply Forall_cons in Hall as [Hl Hall].
  cbn [fmap list_fmap DestroyList_loop].
  rewrite (FreeItem_allocated _ _ Hl).
  callback_succeeded. now apply IH, still_allocated.
Qed.

Lemma DestroyList_loop_stops (ls : list loc) (post : GList) :
  NoDup ls ->
  forall m,
    Forall (fun l => is_Some (blocks m !! l)) ls ->
    DestroyList_loop m ((Some <$> ls) ++ NULL :: post) =
      Ok (EXIT_FAILURE, release_all m ls).
Proof.
  induction 1 as [|l ls Hnotin _ IH]; intros m Hall; [reflexivity|].
  apply Forall_cons in Hall as [Hl Hall].
  cbn [fmap list_fmap app DestroyList_loop].
  rewrite (FreeItem_allocated _ _ Hl).
  callback_succeeded. now apply IH, still_allocated.
Qed.

(** C5, as the code has it: on a list that is not empty, [PrintList] and
    [DestroyList] stop at the first element whose data pointer is null,
    the only failure [PrintItem] and [FreeItem] report, and return
    EXIT_FAILURE having printed, respectively released, exactly the
    elements before it; when no element is null they go through the whole
    list in order and return EXIT_SUCCESS. On the empty list, which is the
    null [GList], both return EXIT_FAILURE. *)
Theorem bulk_halts_on_first_failure :
  (forall m out ls ds post,
      Forall2 (fun l d => load_item m l = Ok d) ls ds ->
      PrintList m out ((Some <$> ls) ++ NULL :: post) =
        Ok (EXIT_FAILURE, print_all out ds)) /\
  (forall m out ls ds,
      ls <> [] ->
      Forall2 (fun l d => load_item m l = Ok d) ls ds ->
      PrintList m out (Some <$> ls) = Ok (EXIT_SUCCESS, print_all out ds)) /\
  (forall m ls post,
      NoDup ls ->
      Forall (fun l => is_Some (blocks m !! l)) ls ->
      DestroyList m ((Some <$> ls) ++ NULL :: post) =
        Ok (EXIT_FAILURE, release_all m ls)) /\
  (forall m ls,
      ls <> [] ->
      NoDup ls ->
      Forall (fun l => is_Some (blocks m !! l)) ls ->
      DestroyList m (Some <$> ls) = Ok (EXIT_SUCCESS, release_all m ls)) /\
  (forall m out, PrintList m out [] = Ok (EXIT_FAILURE, out)) /\
  (forall m, DestroyList m [] = Ok (EXIT_FAILURE, m)).
Proof.
  repeat apply conj.
  - intros m out ls ds post H.
    rewrite <- (PrintList_loop_stops m ls ds post H out).
    now destruct ls.
  - intros m out ls ds Hne H.
    rewrite <- (PrintList_loop_all m ls ds H out).
    now destruct ls.
  - intros m ls post Hnd H.
    rewrite <- (DestroyList_loop_stops ls post Hnd m H).
    now destruct ls.
  - intros m ls Hne Hnd H.
    rewrite <- (DestroyList_loop_all ls Hnd m H).
    now destruct ls.
  - reflexivity.
  - reflexivity.
Qed.

(** C5 as stated fails on the empty list: no element of it fails, and
    neither function returns EXIT_SUCCESS. *)
Lemma bulk_empty_list_reports_failure :
  Forall (fun p : ptr => p <> NULL) ([] : GList) /\
  PrintList (mkMem ∅ 0) "" [] = Ok (EXIT_FAILURE, ""%string) /\
  DestroyList (mkMem ∅ 0) [] = Ok (EXIT_FAILURE, mkMem ∅ 0) /\
  EXIT_FAILURE <> EXIT_SUCCESS.
Proof. repeat split; (constructor || discriminate). Qed.

(** ** Reading integers and words *)

Lemma chr_range (a : ascii) : 0 <= chr a < 256.
Proof.
  unfold chr. pose proof (N_ascii_bounded a) as H. lia.
Qed.

Lemma chr_inj (a b : ascii) : chr a = chr b -> a = b.
Proof.
  unfold chr. intros H. apply N2Z.inj in H.
  rewrite <- (ascii_N_embedding a), <- (ascii_N_embedding b). now rewrite H.
Qed.

Lemma to_char_chr (a : ascii) : to_char (chr a) = a.
Proof.
  unfold to_char. rewrite Z.mod_small by apply chr_range.
  unfold chr. rewrite N2Z.id. apply ascii_N_embedding.
Qed.

Lemma chr_not_EOF (a : ascii) : (chr a =? EOF) = false.
Proof. apply Z.eqb_neq. pose proof (chr_range a). unfold EOF. lia. Qed.

Lemma chr_eqb (a b : ascii) : (chr a =? chr b) = Ascii.eqb a b.
Proof.
  destruct (Ascii.eqb_spec a b) as [->|Hne].
  - apply Z.eqb_refl.
  - apply Z.eqb_neq. intros H. now apply Hne, chr_inj.
Qed.

(** The comment loop never ends on a stream that has no newline left. *)
Lemma skip_comment_no_newline (fuel : nat) :
  forall fp, "010"%char ∉ unread fp -> skip_comment fuel fp = None.
Proof.
  induction fuel as [|k IH]; intros fp Hnl; [reflexivity|].
  cbn [skip_comment]. unfold getc.
  destruct (eof_ind fp) eqn:Heof.
  - change (negb (EOF =? chr "010")) with true. cbn iota. now apply IH.
  - destruct (unread fp) as [|a rest] eqn:Hun.
    + change (negb (EOF =? chr "010")) with true. cbn iota.
      apply IH. cbn. apply not_elem_of_nil.
    + apply not_elem_of_cons in Hnl as [Ha Hrest].
      rewrite chr_eqb. destruct (Ascii.eqb_spec a "010"); [congruence|].
      cbn [negb]. now apply IH.
Qed.

(** C8: a comment that the end of the file cuts short, with no newline
    after the [#], keeps [GetInt] and [GetString] in the comment loop:
    once the characters before it (neither digits, nor letters, nor the
    start of another comment) are passed, neither function returns,
    whatever the number of iterations allowed. *)
Theorem comment_without_newline_never_returns
  (fuel : nat) (m : mem) (pre body : list ascii) :
  Forall blank pre ->
  "010"%char ∉ body ->
  GetInt fuel (mkFILE (pre ++ "#"%char :: body) false) = None /\
  GetString fuel m (mkFILE (pre ++ "#"%char :: body) false) = None.
Proof.
  intros Hpre Hnl.
  assert (Hskip : forall k, skip_comment k (mkFILE body false) = None)
    by (intros k; now apply skip_comment_no_newline).
  split.
  - unfold GetInt.
    enough (H : forall sign, GetInt_skip fuel sign
                  (mkFILE (pre ++ "#"%char :: body) false) = None)
      by now rewrite H.
    revert fuel. induction pre as [|b pre IH]; intros [|k] sign;
      try reflexivity; cbn [GetInt_skip app getc eof_ind unread].
    + change (chr "#" =? chr "#") with true. cbn iota. now rewrite Hskip.
    + apply Forall_cons in Hpre as [(Hd & _ & Hhash) Hpre].
      rewrite chr_eqb. destruct (Ascii.eqb_spec b "#") as [|_]; [contradiction|].
      rewrite Hd. cbn [negb andb feof eof_ind]. now apply IH.
  - unfold GetString.
    enough (H : GetString_skip fuel
                  (mkFILE (pre ++ "#"%char :: body) false) = None)
      by now rewrite H.
    revert fuel. induction pre as [|b pre IH]; intros [|k];
      try reflexivity; cbn [GetString_skip app getc eof_ind unread].
    + change (chr "#" =? chr "#") with true. cbn iota. now rewrite Hskip.
    + apply Forall_cons in Hpre as [(_ & Hal & Hhash) Hpre].
      rewrite chr_eqb. destruct (Ascii.eqb_spec b "#") as [|_]; [contradiction|].
      rewrite Hal. cbn [negb andb feof eof_ind]. now apply IH.
Qed.

Lemma comment_without_newline_example :
  GetInt 1000 (fopen "
# last line") = None /\
  GetString 1000 (mkMem ∅ 8) (fopen "
# last line") = None.
Proof.
  apply (comment_without_newline_never_returns 1000 (mkMem ∅ 8)
           ["010"%char] (list_ascii_of_string " last line")).
  - repeat constructor; discriminate.
  - rewrite list_elem_of_In. cbn. intros H.
    repeat (destruct H as [H|H]; [discriminate H|]). exact H.
Defined.

(** C10: on the empty file [GetInt] returns EOF, which is -1, from the
    branch taken at the end of the file; on the file that holds the number
    -1 it returns -1 from the conversion, and leaves the stream in the very
    same state. *)
Theorem GetInt_EOF_is_minus_one :
  forall k,
    GetInt (3 + k) (fopen "") = Some (EOF, mkFILE [] true) /\
    reads_integer (3 + k) (fopen "") = false /\
    GetInt (3 + k) (fopen "-1") = Some (-1, mkFILE [] true) /\
    reads_integer (3 + k) (fopen "-1") = true /\
    EOF = -1.
Proof.
  intros k. repeat split.
Qed.

Lemma isdigit_range (c : Z) : isdigit c = true <-> 48 <= c <= 57.
Proof.
  unfold isdigit. change (chr "0") with 48. change (chr "9") with 57.
  rewrite andb_true_iff, !Z.leb_le. tauto.
Qed.

Lemma isdigit_EOF : isdigit EOF = false.
Proof. reflexivity. Qed.

Lemma digit_not_hash (c : Z) : isdigit c = true -> (c =? chr "#") = false.
Proof.
  rewrite isdigit_range. change (chr "#") with 35. intros H.
  apply Z.eqb_neq. lia.
Qed.

Lemma digit_not_minus (c : Z) : isdigit c = true -> (c =? chr "-") = false.
Proof.
  rewrite isdigit_range. change (chr "-") with 45. intros H.
  apply Z.eqb_neq. lia.
Qed.

(** The conversion loop stops at once on a character that is no digit. *)
Lemma GetInt_digits_stop (k : nat) (c i : Z) (fp : FILE) :
  isdigit c = false -> GetInt_digits (S k) c i fp = Some (c, i, fp).
Proof. intros H. cbn [GetInt_digits]. now rewrite H. Qed.

Lemma getc_ends_number (rest : list ascii) :
  ends_number rest -> isdigit (fst (getc (mkFILE rest false))) = false.
Proof. destruct rest as [|d r]; [reflexivity | exact (fun H => H)]. Qed.

(** The conversion loop on a run of digits: it reads them all, then the
    character that follows. *)
Lemma GetInt_digits_run (ds : list ascii) :
  forall (a : ascii) (i : Z) (rest : list ascii) (fuel : nat),
    isdigit (chr a) = true ->
    Forall (fun b => isdigit (chr b) = true) ds ->
    ends_number rest ->
    (length ds + 1 < fuel)%nat ->
    GetInt_digits fuel (chr a) i (mkFILE (ds ++ rest) false) =
      Some (fst (getc (mkFILE rest false)),
            fold_left digit_step ds (digit_step i a),
            snd (getc (mkFILE rest false))).
Proof.
  induction ds as [|b ds IH]; intros a i rest fuel Ha Hds Hrest Hfuel.
  - destruct fuel as [|[|k]]; cbn [length] in Hfuel; [lia|lia|].
    cbn [GetInt_digits app fold_left]. rewrite Ha. cbn [feof eof_ind negb andb].
    fold (digit_step i a).
    destruct (getc (mkFILE rest false)) as [c fp] eqn:E.
    pose proof (getc_ends_number rest Hrest) as Hc. rewrite E in Hc.
    cbn [fst snd] in *. now apply GetInt_digits_stop.
  - destruct fuel as [|k]; cbn [length] in Hfuel; [lia|].
    apply Forall_cons in Hds as [Hb Hds].
    cbn [GetInt_digits app fold_left]. rewrite Ha. cbn [feof eof_ind negb andb].
    fold (digit_step i a).
    cbn [getc eof_ind unread].
    apply IH; try assumption. lia.
Qed.

Lemma peek_after_number (rest : list ascii) :
  peek (snd (getc (mkFILE rest false))) = after_number rest.
Proof.
  destruct rest as [|d [|e r]]; try reflexivity.
  unfold peek, after_number. cbn [getc eof_ind unread snd tl length Nat.leb].
  rewrite chr_not_EOF. cbn [negb]. unfold ungetc. rewrite chr_not_EOF.
  now rewrite to_char_chr.
Qed.

(** The first loop of [GetInt] over characters that are neither digits
    nor the start of a comment: the sign it hands on is negative as soon
    as one of them is a minus sign. *)
Lemma GetInt_skip_passed_over (pre : list ascii) :
  forall (sign : Z) (a : ascii) (rest : list ascii) (fuel : nat),
    Forall passed_over pre ->
    isdigit (chr a) = true ->
    (length pre < fuel)%nat ->
    GetInt_skip fuel sign (mkFILE (pre ++ a :: rest) false) =
      Some (chr a, (if bool_decide ("-"%char ∈ pre) then -1 else sign),
            mkFILE rest false).
Proof.
  induction pre as [|b pre IH]; intros sign a rest fuel Hpre Ha Hfuel;
    (destruct fuel as [|k]; cbn [length] in Hfuel; [lia|]);
    cbn [GetInt_skip app getc eof_ind unread].
  - rewrite (digit_not_hash _ Ha), (digit_not_minus _ Ha), Ha. reflexivity.
  - apply Forall_cons in Hpre as [[Hb Hhash] Hpre].
    rewrite chr_eqb. destruct (Ascii.eqb_spec b "#") as [|_]; [contradiction|].
    rewrite Hb. cbn [negb feof eof_ind andb].
    rewrite IH by (assumption || lia).
    do 2 f_equal. rewrite chr_eqb.
    destruct (Ascii.eqb_spec b "-") as [->|Hne].
    + rewrite (bool_decide_eq_true_2 ("-"%char ∈ "-"%char :: pre))
        by apply list_elem_of_here.
      now destruct (bool_decide _).
    + destruct (bool_decide ("-"%char ∈ pre)) eqn:E.
      * apply bool_decide_eq_true_1 in E.
        now rewrite bool_decide_eq_true_2 by now apply list_elem_of_further.
      * apply bool_decide_eq_false_1 in E.
        rewrite bool_decide_eq_false_2; [reflexivity|].
        intros H. apply elem_of_cons in H as [H|H]; congruence.
Qed.

(** [GetInt] on a stream made of characters passed over, then a run of
    digits, then a rest that does not go on with a digit. *)
Lemma GetInt_after_passed_over
  (fuel : nat) (pre : list ascii) (a : ascii) (ds rest : list ascii) :
  Forall passed_over pre ->
  Forall (fun b => isdigit (chr b) = true) (a :: ds) ->
  ends_number rest ->
  (length pre + length ds + 1 < fuel)%nat ->
  reads_integer fuel (mkFILE (pre ++ (a :: ds) ++ rest) false) = true /\
  GetInt fuel (mkFILE (pre ++ (a :: ds) ++ rest) false) =
    Some (int_wrap (decimal (a :: ds) *
                    (if bool_decide ("-"%char ∈ pre) then -1 else 1)),
          after_number rest).
Proof.
  intros Hpre Hds Hrest Hfuel.
  apply Forall_cons in Hds as [Ha Hds].
  unfold reads_integer, GetInt. cbn [app].
  rewrite GetInt_skip_passed_over by (assumption || lia).
  cbn [feof eof_ind negb]. split; [reflexivity|].
  rewrite GetInt_digits_run by (assumption || lia).
  now rewrite peek_after_number.
Qed.

(** C6: a minus sign anywhere among the characters passed over before
    the number makes the result negative, also when other characters
    stand between it and the first digit. *)
Theorem GetInt_minus_sticks
  (fuel : nat) (pre : list ascii) (a : ascii) (ds rest : list ascii) :
  Forall passed_over pre ->
  "-"%char ∈ pre ->
  Forall (fun b => isdigit (chr b) = true) (a :: ds) ->
  ends_number rest ->
  (length pre + length ds + 1 < fuel)%nat ->
  GetInt fuel (mkFILE (pre ++ (a :: ds) ++ rest) false) =
    Some (int_wrap (decimal (a :: ds) * -1),
          mkFILE (tl rest) (Nat.leb (length rest) 1)).
Proof.
  intros Hpre Hminus Hds Hrest Hfuel.
  destruct (GetInt_after_passed_over fuel pre a ds rest Hpre Hds Hrest Hfuel)
    as [_ H].
  now rewrite bool_decide_eq_true_2 in H by assumption.
Qed.

Lemma GetInt_minus_sticks_example :
  GetInt 10 (fopen "a-b 5") = Some (-5, mkFILE [] true).
Proof.
  apply (GetInt_minus_sticks 10 (list_ascii_of_string "a-b ") "5" [] []).
  - repeat constructor; discriminate.
  - rewrite list_elem_of_In. cbn. tauto.
  - repeat constructor.
  - exact I.
  - cbn. lia.
Defined.

(** The comment loop returns only after it read a newline. *)
Lemma skip_comment_inv (fuel : nat) :
  forall fp c fp',
    skip_comment fuel fp = Some (c, fp') ->
    c = chr "010" /\ eof_ind fp = false /\ eof_ind fp' = false /\
    exists body, unread fp = body ++ "010"%char :: unread fp'.
Proof.
  induction fuel as [|k IH]; intros fp c fp' H; [discriminate|].
  cbn [skip_comment] in H. unfold getc in H.
  destruct fp as [un e]. cbn [eof_ind unread] in *.
  destruct e.
  - change (negb (EOF =? chr "010")) with true in H. cbn iota in H.
    apply IH in H as (_ & He & _). discriminate He.
  - destruct un as [|a r].
    + change (negb (EOF =? chr "010")) with true in H. cbn iota in H.
      apply IH in H as (_ & He & _). discriminate He.
    + rewrite chr_eqb in H. destruct (Ascii.eqb_spec a "010") as [->|Hne].
      * cbn [negb] in H. injection H as <- <-.
        repeat split. now exists [].
      * cbn [negb] in H. apply IH in H as (Hc & _ & He & body & Hbody).
        cbn [unread] in Hbody. repeat split; try assumption.
        exists (a :: body). now rewrite Hbody.
Qed.

(** When the first loop of [GetInt] ends before the end of the file, it
    ends on a digit of the stream. *)
Lemma GetInt_skip_inv (fuel : nat) :
  forall sign fp c sg fp1,
    GetInt_skip fuel sign fp = Some (c, sg, fp1) ->
    feof fp1 = false ->
    exists pre a,
      unread fp = pre ++ a :: unread fp1 /\ c = chr a /\
      isdigit c = true /\ (sg = sign \/ sg = -1).
Proof.
  induction fuel as [|k IH]; intros sign fp c sg fp1 H Hfeof; [discriminate|].
  cbn [GetInt_skip] in H. unfold getc in H.
  destruct fp as [un e]. cbn [eof_ind unread] in *.
  destruct e; [|destruct un as [|a r]].
  - cbn in H. injection H as <- <- <-. discriminate Hfeof.
  - cbn in H. injection H as <- <- <-. discriminate Hfeof.
  - rewrite chr_eqb in H. destruct (Ascii.eqb_spec a "#") as [->|Hhash].
    + destruct (skip_comment k (mkFILE r false)) as [[c1 fp2]|] eqn:Hskip;
        [|discriminate].
      apply skip_comment_inv in Hskip as (-> & _ & He2 & body & Hbody).
      cbn [unread] in Hbody.
      change (chr "010" =? chr "-") with false in H.
      change (isdigit (chr "010")) with false in H.
      unfold feof in H at 1. rewrite He2 in H. cbn [negb andb] in H.
      apply IH in H as (pre & a & Hun & Hc & Hd & Hsg); [|assumption].
      exists ("#"%char :: body ++ "010"%char :: pre), a.
      repeat split; try assumption.
      rewrite Hbody, Hun. cbn [app]. now rewrite <- app_assoc.
    + destruct (isdigit (chr a)) eqn:Hd; cbn [negb andb feof eof_ind] in H.
      * injection H as <- <- <-. exists [], a. repeat split; try assumption.
        rewrite (digit_not_minus _ Hd). now left.
      * apply IH in H as (pre & b & Hun & Hc & Hdb & Hsg); [|assumption].
        cbn [unread] in Hun.
        exists (a :: pre), b. repeat split; try assumption.
        -- now rewrite Hun.
        -- destruct (chr a =? chr "-"); tauto.
Qed.

(** When the conversion loop of [GetInt] returns, it has read the run of
    digits the stream went on with and the character after it. *)
Lemma GetInt_digits_inv (fuel : nat) :
  forall a i fp c' i' fp',
    isdigit (chr a) = true ->
    eof_ind fp = false ->
    GetInt_digits fuel (chr a) i fp = Some (c', i', fp') ->
    exists ds rest,
      unread fp = ds ++ rest /\
      Forall (fun b => isdigit (chr b) = true) ds /\
      ends_number rest /\
      i' = fold_left digit_step ds (digit_step i a) /\
      fp' = snd (getc (mkFILE rest false)).
Proof.
  induction fuel as [|k IH]; intros a i fp c' i' fp' Ha He H; [discriminate|].
  cbn [GetInt_digits] in H. rewrite Ha in H. unfold feof in H.
  rewrite He in H. cbn [negb andb] in H. fold (digit_step i a) in H.
  destruct fp as [un e]. cbn [eof_ind unread] in *. subst e.
  unfold getc in H. cbn [eof_ind unread] in H.
  destruct un as [|b r].
  - destruct k as [|k]; [discriminate|].
    rewrite GetInt_digits_stop in H by apply isdigit_EOF.
    injection H as <- <- <-. exists [], []. repeat split. constructor.
  - destruct (isdigit (chr b)) eqn:Hb.
    + apply IH in H as (ds & rest & Hun & Hds & Hrest & Hi & Hfp);
        [|assumption|reflexivity].
      cbn [unread] in Hun. exists (b :: ds), rest.
      repeat split; try assumption.
      * now rewrite Hun.
      * now constructor.
    + destruct k as [|k]; [discriminate|].
      rewrite GetInt_digits_stop in H by assumption.
      injection H as <- <- <-. exists [], (b :: r).
      repeat split; try assumption. constructor.
Qed.

(** What [GetInt] has done whenever it read an integer. *)
Lemma GetInt_inv (fuel : nat) (fp : FILE) (n : Z) (fp' : FILE) :
  reads_integer fuel fp = true ->
  GetInt fuel fp = Some (n, fp') ->
  exists pre ds rest sg,
    unread fp = pre ++ ds ++ rest /\
    ds <> [] /\
    Forall (fun b => isdigit (chr b) = true) ds /\
    ends_number rest /\
    (sg = 1 \/ sg = -1) /\
    n = int_wrap (decimal ds * sg) /\
    fp' = after_number rest.
Proof.
  unfold reads_integer, GetInt. intros Hreads H.
  destruct (GetInt_skip fuel 1 fp) as [[[c sg] fp1]|] eqn:Hskip; [|discriminate].
  apply negb_true_iff in Hreads. rewrite Hreads in H.
  destruct (GetInt_skip_inv _ _ _ _ _ _ Hskip Hreads)
    as (pre & a & Hun & -> & Hd & Hsg).
  destruct (GetInt_digits fuel (chr a) 0 fp1) as [[[c' i'] fp2]|] eqn:Hdig;
    [|discriminate].
  injection H as <- <-.
  destruct (GetInt_digits_inv _ _ _ _ _ _ _ Hd Hreads Hdig)
    as (ds & rest & Hun1 & Hds & Hrest & -> & ->).
  exists pre, (a :: ds), rest, sg.
  split; [rewrite Hun, Hun1; reflexivity|].
  split; [discriminate|].
  split; [now constructor|].
  split; [assumption|].
  split; [assumption|].
  split; [reflexivity|].
  apply peek_after_number.
Qed.

(** C7, as the code has it: whenever [GetInt] reads an integer, the
    stream held some characters, then the digits of the number, then a
    rest that does not start with a digit; on return the first character
    of that rest has been read too and is not given back, and the one
    after it has been looked at and pushed back unless the file ended.
    And [GetInt] does read the integer, and leaves the stream so, when
    the characters before the digits are neither digits nor the start of
    a comment. *)
Theorem GetInt_position_after_number :
  (forall fuel fp n fp',
      reads_integer fuel fp = true ->
      GetInt fuel fp = Some (n, fp') ->
      exists pre ds rest sg,
        unread fp = pre ++ ds ++ rest /\
        ds <> [] /\
        Forall (fun b => isdigit (chr b) = true) ds /\
        ends_number rest /\
        (sg = 1 \/ sg = -1) /\
        n = int_wrap (decimal ds * sg) /\
        unread fp' = tl rest /\
        eof_ind fp' = Nat.leb (length rest) 1) /\
  (forall fuel pre a ds rest,
      Forall passed_over pre ->
      Forall (fun b => isdigit (chr b) = true) (a :: ds) ->
      ends_number rest ->
      (length pre + length ds + 1 < fuel)%nat ->
      reads_integer fuel (mkFILE (pre ++ (a :: ds) ++ rest) false) = true /\
      exists n,
        GetInt fuel (mkFILE (pre ++ (a :: ds) ++ rest) false) =
          Some (n, mkFILE (tl rest) (Nat.leb (length rest) 1))).
Proof.
  split.
  - intros fuel fp n fp' Hreads H.
    destruct (GetInt_inv fuel fp n fp' Hreads H)
      as (pre & ds & rest & sg & H1 & H2 & H3 & H4 & H5 & H6 & ->).
    exists pre, ds, rest, sg. now repeat (split; [assumption|]).
  - intros fuel pre a ds rest Hpre Hds Hrest Hfuel.
    destruct (GetInt_after_passed_over fuel pre a ds rest Hpre Hds Hrest Hfuel)
      as [Hreads H].
    split; [assumption|]. eexists. exact H.
Qed.

Lemma GetInt_position_after_number_example :
  exists pre ds rest sg,
    list_ascii_of_string "# n
-42 Hello" = pre ++ ds ++ rest /\
    ds <> [] /\
    Forall (fun b => isdigit (chr b) = true) ds /\
    ends_number rest /\
    (sg = 1 \/ sg = -1) /\
    -42 = int_wrap (decimal ds * sg) /\
    list_ascii_of_string "Hello" = tl rest /\
    false = Nat.leb (length rest) 1.
Proof.
  exact (proj1 GetInt_position_after_number 20%nat (fopen "# n
-42 Hello") (-42) (mkFILE (list_ascii_of_string "Hello") false)
           eq_refl eq_refl).
Defined.

(** C7 as stated fails: after the number of ["42Hello"] the [H] that
    follows the last digit is gone, and the stream goes on with ["ello"]. *)
Lemma GetInt_consumes_the_delimiter :
  reads_integer 10 (fopen "42Hello") = true /\
  GetInt 10 (fopen "42Hello") =
    Some (42, mkFILE (list_ascii_of_string "ello") false) /\
  list_ascii_of_string "ello" <> list_ascii_of_string "Hello".
Proof. repeat split. discriminate. Qed.

Lemma isalpha_range (c : Z) :
  isalpha c = true <-> 65 <= c <= 90 \/ 97 <= c <= 122.
Proof.
  unfold isalpha.
  change (chr "A") with 65. change (chr "Z") with 90.
  change (chr "a") with 97. change (chr "z") with 122.
  rewrite orb_true_iff, !andb_true_iff, !Z.leb_le. tauto.
Qed.

Lemma alpha_not_hash (c : Z) : isalpha c = true -> (c =? chr "#") = false.
Proof.
  rewrite isalpha_range. change (chr "#") with 35. intros H.
  apply Z.eqb_neq. lia.
Qed.

Lemma buffer_store_inside (buffer : list ascii) (i : Z) (v : ascii) :
  0 <= i < Z.of_nat (length buffer) ->
  buffer_store buffer i v = Ok (<[Z.to_nat i := v]> buffer).
Proof.
  intros [H0 H1]. unfold buffer_store.
  apply Z.leb_le in H0. apply Z.ltb_lt in H1. now rewrite H0, H1.
Qed.

Lemma buffer_store_outside (buffer : list ascii) (i : Z) (v : ascii) :
  Z.of_nat (length buffer) <= i -> buffer_store buffer i v = Fault.
Proof.
  intros H. unfold buffer_store.
  apply Z.ltb_ge in H. rewrite H. now rewrite andb_false_r.
Qed.

(** The accumulation loop of [GetString] on a run of letters that reaches
    the end of the array: it stops with the index at BUFSIZE. *)
Lemma GetString_fill_reaches_BUFSIZE (w : list ascii) :
  forall (a : ascii) (i : Z) (buffer rest : list ascii) (fuel : nat),
    isalpha (chr a) = true ->
    Forall (fun b => isalpha (chr b) = true) w ->
    0 <= i ->
    i + 1 + Z.of_nat (length w) = BUFSIZE ->
    length buffer = Z.to_nat BUFSIZE ->
    (length w + 1 < fuel)%nat ->
    exists c' buffer' fp',
      GetString_fill fuel (chr a) i buffer (mkFILE (w ++ rest) false) =
        Some (Ok (c', BUFSIZE, buffer', fp')) /\
      length buffer' = Z.to_nat BUFSIZE.
Proof.
  unfold BUFSIZE.
  induction w as [|b w IH]; intros a i buffer rest fuel Ha Hw Hi Hlen Hbuf Hfuel.
  - destruct fuel as [|[|k]]; cbn [length] in Hfuel, Hlen; [lia|lia|].
    assert (i = 255) as -> by lia.
    cbn [GetString_fill]. rewrite Ha. cbn [feof eof_ind negb andb app].
    change (255 <? BUFSIZE) with true. cbn iota.
    rewrite buffer_store_inside by (rewrite Hbuf; lia).
    destruct (getc (mkFILE rest false)) as [c fp].
    change (255 + 1 <? BUFSIZE) with false. rewrite andb_false_r.
    do 3 eexists. split; [reflexivity|]. now rewrite length_insert.
  - destruct fuel as [|k]; cbn [length] in Hfuel, Hlen; [lia|].
    apply Forall_cons in Hw as [Hb Hw].
    cbn [GetString_fill]. rewrite Ha. cbn [feof eof_ind negb andb app].
    assert (Hlt : (i <? BUFSIZE) = true) by (apply Z.ltb_lt; unfold BUFSIZE; lia).
    rewrite Hlt. rewrite buffer_store_inside by (rewrite Hbuf; lia).
    cbn [getc eof_ind unread].
    apply IH; try assumption; try lia.
    now rewrite length_insert.
Qed.

(** C9: a word of BUFSIZE letters or more fills the whole array; the
    accumulation stops with the index at BUFSIZE, and the terminator is
    then written at that index, one element past the end of the array. *)
Theorem GetString_terminator_out_of_bounds
  (fuel : nat) (m : mem) (a : ascii) (w rest : list ascii) :
  Forall (fun b => isalpha (chr b) = true) (a :: w) ->
  length (a :: w) = Z.to_nat BUFSIZE ->
  (Z.to_nat BUFSIZE + 1 < fuel)%nat ->
  exists c' buffer' fp',
    GetString_fill fuel (chr a) 0 (repeat "000"%char (Z.to_nat BUFSIZE))
      (mkFILE (w ++ rest) false) = Some (Ok (c', BUFSIZE, buffer', fp')) /\
    length buffer' = Z.to_nat BUFSIZE /\
    buffer_store buffer' BUFSIZE "000" = Fault /\
    GetString fuel m (mkFILE ((a :: w) ++ rest) false) = Some Fault.
Proof.
  intros Hw Hlen Hfuel.
  apply Forall_cons in Hw as [Ha Hw].
  cbn [length] in Hlen.
  destruct (GetString_fill_reaches_BUFSIZE w a 0
              (repeat "000"%char (Z.to_nat BUFSIZE)) rest fuel)
    as (c' & buffer' & fp' & Hfill & Hbuf);
    try assumption; try apply repeat_length; try (unfold BUFSIZE in *; lia).
  exists c', buffer', fp'.
  assert (Hstore : buffer_store buffer' BUFSIZE "000" = Fault)
    by (apply buffer_store_outside; rewrite Hbuf; unfold BUFSIZE; lia).
  repeat split; try assumption.
  unfold GetString. destruct fuel as [|k]; [lia|].
  cbn [GetString_skip app getc eof_ind unread].
  rewrite (alpha_not_hash _ Ha), Ha. cbn [negb andb feof eof_ind].
  rewrite Hfill. now rewrite Hstore.
Qed.

Lemma GetString_terminator_out_of_bounds_example :
  GetString 300 (mkMem ∅ 8) (mkFILE (repeat "a"%char 256) false) = Some Fault.
Proof.
  destruct (GetString_terminator_out_of_bounds 300 (mkMem ∅ 8)
              "a" (repeat "a"%char 255) [])
    as (_ & _ & _ & _ & _ & _ & H).
  - apply Forall_forall. intros x Hx.
    apply list_elem_of_In in Hx.
    apply (repeat_spec 256 "a"%char x) in Hx. now subst x.
  - reflexivity.
  - unfold BUFSIZE. cbn. lia.
  - rewrite app_nil_r in H. exact H.
Defined.

(** ** More on releasing records *)

Lemma release_all_cons (m : mem) (l : loc) (ls : list loc) :
  release_all m (l :: ls) =
    release_all (mkMem (delete l (blocks m)) (S (room m))) ls.
Proof. reflexivity. Qed.

Lemma release_all_lookup (ls : list loc) :
  forall (m : mem) (q : loc),
    blocks (release_all m ls) !! q =
      if bool_decide (q ∈ ls) then None else blocks m !! q.
Proof.
  induction ls as [|l ls IH]; intros m q; [reflexivity|].
  rewrite release_all_cons, IH. cbn [blocks].
  destruct (decide (q ∈ ls)) as [Hin|Hnotin].
  - rewrite (bool_decide_eq_true_2 _ Hin).
    now rewrite bool_decide_eq_true_2 by now apply list_elem_of_further.
  - rewrite (bool_decide_eq_false_2 _ Hnotin).
    destruct (decide (q = l)) as [->|Hne].
    + rewrite lookup_delete_eq.
      now rewrite bool_decide_eq_true_2 by apply list_elem_of_here.
    + rewrite lookup_delete_ne by congruence.
      rewrite bool_decide_eq_false_2; [reflexivity|].
      intros H. apply elem_of_cons in H as [H|H]; contradiction.
Qed.

Lemma release_all_room (ls : list loc) :
  forall m : mem, room (release_all m ls) = (length ls + room m)%nat.
Proof.
  induction ls as [|l ls IH]; intros m; [reflexivity|].
  rewrite release_all_cons, IH. cbn [room length]. lia.
Qed.

Lemma loaded_allocated (m : mem) (ls : list loc) (ds : list myData) :
  Forall2 (fun l d => load_item m l = Ok d) ls ds ->
  Forall (fun l => is_Some (blocks m !! l)) ls.
Proof.
  induction 1 as [|l d ls ds Hl _ IH]; constructor; [|assumption].
  unfold load_item in Hl. destruct (blocks m !! l); [eauto|discriminate].
Qed.

(** X1: releasing a record a second time is a fault: [FreeItem] succeeds
    on a pointer to an allocated block and releases it, and a second call
    on the same pointer frees a block that is no longer allocated. *)
Theorem FreeItem_twice_faults (m : mem) (l : loc) :
  is_Some (blocks m !! l) ->
  exists m',
    FreeItem m (Some l) = Ok (EXIT_SUCCESS, m') /\
    blocks m' !! l = None /\
    room m' = S (room m) /\
    FreeItem m' (Some l) = Fault.
Proof.
  intros Hl. rewrite (FreeItem_allocated _ _ Hl). eexists.
  split; [reflexivity|]. cbn [blocks room].
  split; [apply lookup_delete_eq|]. split; [reflexivity|].
  unfold FreeItem, free. cbn [blocks]. now rewrite lookup_delete_eq.
Qed.

Lemma FreeItem_twice_faults_example :
  exists m',
    FreeItem (mkMem {[1%positive := Node 7 NULL]} 0) (Some 1%positive) =
      Ok (EXIT_SUCCESS, m') /\
    blocks m' !! 1%positive = None /\
    room m' = 1%nat /\
    FreeItem m' (Some 1%positive) = Fault.
Proof.
  apply (FreeItem_twice_faults (mkMem {[1%positive := Node 7 NULL]} 0) 1%positive).
  cbn [blocks]. rewrite lookup_singleton_eq. eauto.
Defined.

(** X2: [DestroyList] releases the records' [struct]s and nothing else.
    After it succeeded on a list of distinct records, every listed block
    is released, every other block is as before, and so the string of
    every record of the list is still allocated, with nothing left that
    points to it. *)
Theorem DestroyList_keeps_strings
  (m : mem) (ls : list loc) (ds : list myData) :
  ls <> [] ->
  NoDup ls ->
  Forall2 (fun l d => load_item m l = Ok d) ls ds ->
  exists m',
    DestroyList m (Some <$> ls) = Ok (EXIT_SUCCESS, m') /\
    (forall l, l ∈ ls -> blocks m' !! l = None) /\
    (forall q, q ∉ ls -> blocks m' !! q = blocks m !! q) /\
    (forall l n q, l ∈ ls -> blocks m !! l = Some (Node n (Some q)) ->
                   exists s, blocks m' !! q = Some (Chars s)) /\
    room m' = (length ls + room m)%nat.
Proof.
  intros Hne Hnd Hload.
  pose proof (loaded_allocated _ _ _ Hload) as Hall.
  exists (release_all m ls).
  split.
  { rewrite <- (DestroyList_loop_all ls Hnd m Hall). now destruct ls. }
  split.
  { intros l Hl. rewrite release_all_lookup.
    now rewrite bool_decide_eq_true_2. }
  split.
  { intros q Hq. rewrite release_all_lookup.
    now rewrite bool_decide_eq_false_2. }
  split; [|apply release_all_room].
  intros l n q Hl Hnode.
  assert (Hq : exists s, blocks m !! q = Some (Chars s)).
  { apply list_elem_of_lookup in Hl as [i Hi].
    destruct (Forall2_lookup_l _ _ _ _ _ Hload Hi) as (d & _ & Hd).
    unfold load_item in Hd. rewrite Hnode in Hd.
    destruct (blocks m !! q) as [[|s]|]; try discriminate. eauto. }
  destruct Hq as [s Hs]. exists s.
  rewrite release_all_lookup, bool_decide_eq_false_2; [assumption|].
  intros Hin. apply list_elem_of_lookup in Hin as [i Hi].
  destruct (Forall2_lookup_l _ _ _ _ _ Hload Hi) as (d & _ & Hd).
  unfold load_item in Hd. rewrite Hs in Hd. discriminate.
Qed.

Lemma DestroyList_keeps_strings_example :
  exists m',
    DestroyList
      (mkMem (<[1%positive := Node 7 (Some 2%positive)]>
                {[2%positive := Chars "Huey"]}) 0)
      [Some 1%positive] = Ok (EXIT_SUCCESS, m') /\
    blocks m' !! 2%positive = Some (Chars "Huey").
Proof.
  destruct (DestroyList_keeps_strings
              (mkMem (<[1%positive := Node 7 (Some 2%positive)]>
                        {[2%positive := Chars "Huey"]}) 0)
              [1%positive] [mkData 7 "Huey"])
    as (m' & H1 & _ & H3 & _).
  - discriminate.
  - repeat constructor. apply not_elem_of_nil.
  - repeat constructor.
  - exists m'. split; [exact H1|].
    rewrite H3; [reflexivity|].
    intros H. apply list_elem_of_singleton in H. discriminate.
Defined.

(** X3: [DestroyList] neither releases the list nodes nor clears the
    caller's pointer, and a second call on the same list is a fault: its
    first element is a block that the first call released. *)
Theorem DestroyList_twice_faults (m : mem) (ls : list loc) :
  ls <> [] ->
  NoDup ls ->
  Forall (fun l => is_Some (blocks m !! l)) ls ->
  exists m',
    DestroyList m (Some <$> ls) = Ok (EXIT_SUCCESS, m') /\
    DestroyList m' (Some <$> ls) = Fault.
Proof.
  intros Hne Hnd Hall. exists (release_all m ls). split.
  - rewrite <- (DestroyList_loop_all ls Hnd m Hall). now destruct ls.
  - destruct ls as [|l ls]; [contradiction|].
    cbn [fmap list_fmap DestroyList DestroyList_loop FreeItem free].
    rewrite release_all_lookup.
    now rewrite bool_decide_eq_true_2 by apply list_elem_of_here.
Qed.

Lemma DestroyList_twice_faults_example :
  exists m',
    DestroyList (mkMem {[1%positive := Node 7 NULL]} 0) [Some 1%positive] =
      Ok (EXIT_SUCCESS, m') /\
    DestroyList m' [Some 1%positive] = Fault.
Proof.
  apply (DestroyList_twice_faults (mkMem {[1%positive := Node 7 NULL]} 0)
           [1%positive]).
  - discriminate.
  - repeat constructor. apply not_elem_of_nil.
  - repeat constructor. cbn [blocks]. rewrite lookup_singleton_eq. eauto.
Defined.

(** ** Creating records beside the ones there are *)

Lemma load_item_weaken (m m' : mem) (l : loc) (d : myData) :
  blocks m ⊆ blocks m' ->
  load_item m l = Ok d -> load_item m' l = Ok d.
Proof.
  intros Hsub. unfold load_item.
  destruct (blocks m !! l) as [[n [q|]|s]|] eqn:Hl; try discriminate.
  destruct (blocks m !! q) as [[|s]|] eqn:Hq; try discriminate.
  rewrite (lookup_weaken _ _ _ _ Hl Hsub).
  now rewrite (lookup_weaken _ _ _ _ Hq Hsub).
Qed.

(** [NewItem] with room for both blocks: the record is read back as it
    was given, in blocks that were free, and the memory only grew. *)
Lemma NewItem_grows (m : mem) (n : Z) (s : string) (k : nat) :
  room m = S (S k) ->
  exists l m',
    NewItem m n s = Ok (Some l, m') /\
    blocks m !! l = None /\
    blocks m ⊆ blocks m' /\
    load_item m' l = Ok (mkData n s) /\
    room m' = k.
Proof.
  intros Hroom.
  destruct (NewItem_room2 m n s k Hroom) as (l & q & Hl & Hq & Hlq & E).
  exists l. eexists. split; [exact E|]. split; [assumption|].
  cbn [blocks room]. split; [|split; [|reflexivity]].
  - etransitivity; [apply (insert_subseteq _ q (Chars s)); assumption|].
    apply insert_subseteq. now rewrite lookup_insert_ne by congruence.
  - unfold load_item. cbn [blocks].
    rewrite lookup_insert_eq.
    rewrite lookup_insert_ne by congruence.
    now rewrite lookup_insert_eq.
Qed.

(** X4: [NewItem] leaves the existing records alone. With room for two
    blocks it returns a pointer that was not allocated before, the new
    record reads back as the number and the string given, every record
    that could be read before reads the same afterwards, and two blocks
    of room are used. *)
Theorem NewItem_preserves_records (m : mem) (n : Z) (s : string) (k : nat) :
  room m = S (S k) ->
  exists l m',
    NewItem m n s = Ok (Some l, m') /\
    blocks m !! l = None /\
    load_item m' l = Ok (mkData n s) /\
    (forall l' d, load_item m l' = Ok d -> load_item m' l' = Ok d) /\
    (forall l' d, load_item m l' = Ok d -> l' <> l) /\
    room m' = k.
Proof.
  intros Hroom.
  destruct (NewItem_grows m n s k Hroom) as (l & m' & E & Hl & Hsub & Hload & Hr).
  exists l, m'. repeat split; try assumption.
  - intros l' d. now apply load_item_weaken.
  - intros l' d Hd ->. unfold load_item in Hd. now rewrite Hl in Hd.
Qed.

Lemma NewItem_preserves_records_example :
  exists l m',
    NewItem (mkMem (<[1%positive := Node 7 (Some 2%positive)]>
                      {[2%positive := Chars "Huey"]}) 2) 8 "Dewey" =
      Ok (Some l, m') /\
    (<[1%positive := Node 7 (Some 2%positive)]>
       ({[2%positive := Chars "Huey"]} : gmap positive block)) !! l = None /\
    load_item m' l = Ok (mkData 8 "Dewey") /\
    (forall l' d,
        load_item (mkMem (<[1%positive := Node 7 (Some 2%positive)]>
                            {[2%positive := Chars "Huey"]}) 2) l' = Ok d ->
        load_item m' l' = Ok d) /\
    (forall l' d,
        load_item (mkMem (<[1%positive := Node 7 (Some 2%positive)]>
                            {[2%positive := Chars "Huey"]}) 2) l' = Ok d ->
        l' <> l) /\
    room m' = 0%nat.
Proof.
  exact (NewItem_preserves_records
           (mkMem (<[1%positive := Node 7 (Some 2%positive)]>
                     {[2%positive := Chars "Huey"]}) 2) 8 "Dewey" 0 eq_refl).
Defined.

(** ** Copying a list *)

Lemma loaded_weaken (m m' : mem) (ls : list loc) (ds : list myData) :
  blocks m ⊆ blocks m' ->
  Forall2 (fun l d => load_item m l = Ok d) ls ds ->
  Forall2 (fun l d => load_item m' l = Ok d) ls ds.
Proof.
  intros Hsub H. eapply Forall2_impl; [exact H|].
  intros l d. now apply load_item_weaken.
Qed.

(** The loop of [CopyList] with room for every record. *)
Lemma CopyList_loop_copies (ls : list loc) (ds : list myData) :
  forall (m : mem) (acc : list loc),
    Forall2 (fun l d => load_item m l = Ok d) ls ds ->
    (2 * length ls <= room m)%nat ->
    exists cs m',
      CopyList_loop m (Some <$> ls) (Some <$> acc) = Ok (Some <$> (acc ++ cs), m') /\
      Forall2 (fun c d => load_item m' c = Ok d) cs ds /\
      blocks m ⊆ blocks m' /\
      Forall (fun c => blocks m !! c = None) cs /\
      NoDup cs /\
      (room m' + 2 * length ls)%nat = room m.
Proof.
  revert ds. induction ls as [|l ls IH]; intros ds m acc Hload Hroom.
  - apply Forall2_nil_inv_l in Hload as ->.
    exists [], m. rewrite app_nil_r.
    split; [reflexivity|]. split; [constructor|]. split; [reflexivity|].
    split; [constructor|]. split; [constructor|]. cbn [length]. lia.
  - apply Forall2_cons_inv_l in Hload as (d & ds' & Hl & Hload & ->).
    cbn [length] in Hroom.
    destruct (room m) as [|[|k]] eqn:Hk; [lia|lia|].
    destruct (NewItem_grows m (number d) (theString d) k Hk)
      as (c & m1 & E & Hc & Hsub & Hcd & Hr1).
    assert (Hd : mkData (number d) (theString d) = d) by now destruct d.
    rewrite Hd in Hcd.
    destruct (IH ds' m1 (acc ++ [c])) as (cs & m' & E' & Hcs & Hsub' & Hfresh & Hnd & Hr').
    { now apply (loaded_weaken m). }
    { lia. }
    exists (c :: cs), m'.
    cbn [fmap list_fmap CopyList_loop]. rewrite Hl.
    cbn [mbind res_bind bind]. rewrite E. cbn [mbind res_bind bind].
    replace ((Some <$> acc) ++ [Some c]) with (Some <$> (acc ++ [c]))
      by now rewrite fmap_app.
    rewrite E'. rewrite <- app_assoc. cbn [app].
    split; [reflexivity|].
    split; [constructor; [now apply (load_item_weaken m1)|assumption]|].
    split; [now transitivity (blocks m1)|].
    assert (Hfresh_m : Forall (fun c' => blocks m !! c' = None) cs).
    { eapply Forall_impl; [exact Hfresh|]. cbn. intros c' Hc'.
      destruct (blocks m !! c') as [b|] eqn:Hb; [|reflexivity].
      rewrite (lookup_weaken _ _ _ _ Hb Hsub) in Hc'. discriminate. }
    split; [now constructor|].
    split; [|cbn [length]; lia].
    constructor; [|assumption].
    intros Hin. rewrite Forall_forall in Hfresh.
    specialize (Hfresh c Hin). cbn in Hfresh.
    unfold load_item in Hcd. rewrite Hfresh in Hcd. discriminate.
Qed.



(** X6: printing the copy prints what printing the source prints:
    after [CopyList], [PrintList] on the copy returns the same status and
    writes the same text as [PrintList] on the source list (failure and
    nothing for the empty list, every record in order otherwise). *)
Theorem CopyList_prints_the_same (m : mem) (ls : list loc) (ds : list myData) :
  Forall2 (fun l d => load_item m l = Ok d) ls ds ->
  (2 * length ls <= room m)%nat ->
  exists theCopy m',
    CopyList m (Some <$> ls) = Ok (theCopy, m') /\
    forall out, PrintList m' out theCopy = PrintList m out (Some <$> ls).
Proof.
  intros Hload Hroom.
  destruct ls as [|l ls].
  - exists [], m. split; reflexivity.
  - destruct (CopyList_loop_copies (l :: ls) ds m [] Hload Hroom)
      as (cs & m' & E & Hcs & _).
    exists (Some <$> cs), m'. split; [exact E|]. intros out.
    pose proof (Forall2_length _ _ _ Hcs) as Hlen.
    pose proof (Forall2_length _ _ _ Hload) as Hlen'.
    destruct cs as [|c cs]; [rewrite <- Hlen' in Hlen; discriminate|].
    change (PrintList m' out (Some <$> c :: cs))
      with (PrintList_loop m' out (Some <$> c :: cs)).
    change (PrintList m out (Some <$> l :: ls))
      with (PrintList_loop m out (Some <$> l :: ls)).
    rewrite (PrintList_loop_all m' (c :: cs) ds Hcs).
    now rewrite (PrintList_loop_all m (l :: ls) ds Hload).
Qed.

Lemma CopyList_prints_the_same_example :
  exists theCopy m',
    CopyList (mkMem (<[1%positive := Node 7 (Some 2%positive)]>
                       {[2%positive := Chars "Huey"]}) 2)
      [Some 1%positive] = Ok (theCopy, m') /\
    forall out,
      PrintList m' out theCopy =
        PrintList (mkMem (<[1%positive := Node 7 (Some 2%positive)]>
                            {[2%positive := Chars "Huey"]}) 2)
          out [Some 1%positive].
Proof.
  assert (H1 : Forall2
                 (fun l d =>
                    load_item (mkMem (<[1%positive := Node 7 (Some 2%positive)]>
                                        {[2%positive := Chars "Huey"]}) 2) l
                    = Ok d) [1%positive] [mkData 7 "Huey"])
    by repeat constructor.
  assert (H2 : (2 * length [1%positive] <= 2)%nat) by (cbn; lia).
  exact (CopyList_prints_the_same _ _ _ H1 H2).
Defined.

Lemma NewItem_no_room (m : mem) (n : Z) (s : string) :
  room m = O -> NewItem m n s = Fault.
Proof. intros H. unfold NewItem. now rewrite (malloc_null _ _ H). Qed.

Lemma CopyList_loop_out_of_room (ls : list loc) :
  forall (ds : list myData) (m : mem) (acc : GList) (k : nat),
    Forall2 (fun l d => load_item m l = Ok d) ls ds ->
    room m = (2 * k)%nat ->
    (k < length ls)%nat ->
    CopyList_loop m (Some <$> ls) acc = Fault.
Proof.
  induction ls as [|l ls IH]; intros ds m acc k Hload Hroom Hk;
    cbn [length] in Hk; [lia|].
  apply Forall2_cons_inv_l in Hload as (d & ds' & Hl & Hload & ->).
  cbn [fmap list_fmap CopyList_loop]. rewrite Hl. cbn [mbind res_bind bind].
  destruct k as [|k].
  - now rewrite NewItem_no_room.
  - destruct (NewItem_grows m (number d) (theString d) (2 * k))
      as (c & m1 & E & _ & Hsub & _ & Hr1); [lia|].
    rewrite E. cbn [mbind res_bind bind].
    apply (IH ds' m1 _ k); [now apply (loaded_weaken m)|assumption|lia].
Qed.

(** X7: [CopyList] does not survive running out of memory. When the
    room left is an even number of blocks, too few for two blocks per
    element, the copy goes well until the room is used up and the next
    [NewItem] stores through the null pointer that [malloc] returned:
    no list and no failure status comes back. *)
Theorem CopyList_out_of_memory
  (m : mem) (ls : list loc) (ds : list myData) (k : nat) :
  Forall2 (fun l d => load_item m l = Ok d) ls ds ->
  room m = (2 * k)%nat ->
  (k < length ls)%nat ->
  CopyList m (Some <$> ls) = Fault.
Proof.
  intros Hload Hroom Hk.
  destruct ls as [|l ls]; [cbn [length] in Hk; lia|].
  exact (CopyList_loop_out_of_room (l :: ls) ds m [] k Hload Hroom Hk).
Qed.

Lemma CopyList_out_of_memory_example :
  CopyList (mkMem (<[1%positive := Node 7 (Some 2%positive)]>
                     {[2%positive := Chars "Huey"]}) 0)
    [Some 1%positive] = Fault.
Proof.
  assert (H1 : Forall2
                 (fun l d =>
                    load_item (mkMem (<[1%positive := Node 7 (Some 2%positive)]>
                                        {[2%positive := Chars "Huey"]}) 0) l
                    = Ok d) [1%positive] [mkData 7 "Huey"])
    by repeat constructor.
  exact (CopyList_out_of_memory _ [1%positive] _ 0 H1 eq_refl (le_n 1)).
Defined.

(** ** Finding a record *)

Lemma get_number_loaded (m : mem) (l : loc) (d : myData) :
  load_item m l = Ok d -> get_number m (Some l) = Ok (number d).
Proof.
  unfold load_item, get_number.
  destruct (blocks m !! l) as [[n [q|]|s]|]; try discriminate.
  destruct (blocks m !! q) as [[|s]|]; try discriminate.
  now intros [= <-].
Qed.

Lemma get_theString_loaded (m : mem) (l : loc) (d : myData) :
  load_item m l = Ok d -> get_theString m (Some l) = Ok (theString d).
Proof.
  unfold load_item, get_theString.
  destruct (blocks m !! l) as [[n [q|]|s]|]; try discriminate.
  destruct (blocks m !! q) as [[|s]|]; try discriminate.
  now intros [= <-].
Qed.

(** On a record that can be read, the comparison through the pointer is
    the comparison of the record. *)
Lemma CompareItemsWithKey_ptr_loaded
  (m : mem) (l : loc) (d : myData) (v : operand) (key : Z) :
  load_item m l = Ok d ->
  CompareItemsWithKey_ptr m (Some l) v key = CompareItemsWithKey d v key.
Proof.
  intros Hd. unfold CompareItemsWithKey_ptr, CompareItemsWithKey, CompareItems.
  rewrite (get_number_loaded _ _ _ Hd), (get_theString_loaded _ _ _ Hd).
  destruct (key =? INT); [now destruct v|].
  destruct (key =? STR); [now destruct v|].
  destruct (key =? SINGLESTR); [now destruct v|].
  destruct (key =? SINGLEINT); [now destruct v|].
  reflexivity.
Qed.

(** What [FindInList] has done when it returns. *)
Lemma FindInList_inv (m : mem) (value_p : operand) (key : Z) (myList_p : GList) :
  forall found,
    FindInList m myList_p value_p key = Ok found ->
    exists before,
      myList_p = before ++ found /\
      Forall (fun p => exists r, CompareItemsWithKey_ptr m p value_p key = Ok r /\
                                 r <> EQUAL) before /\
      match found with
      | [] => True
      | data :: _ => CompareItemsWithKey_ptr m data value_p key = Ok EQUAL
      end.
Proof.
  induction myList_p as [|data next IH]; intros found H.
  - injection H as <-. exists []. repeat split. constructor.
  - cbn [FindInList] in H.
    destruct (CompareItemsWithKey_ptr m data value_p key) as [r|] eqn:Hr;
      [|discriminate].
    cbn [mbind res_bind bind] in H.
    destruct (Z.eqb_spec r 0) as [->|Hne].
    + injection H as <-. exists []. repeat split; [constructor|exact Hr].
    + destruct (IH found H) as (before & -> & Hbefore & Hfound).
      exists (data :: before). repeat split; [|assumption].
      constructor; [|assumption]. now exists r.
Qed.

(** X8: [FindInList] never returns a node that does not match. When it
    returns a node, the list is the nodes before it followed by the list
    from that node on, the comparison on that node gave EQUAL, and on
    every node before it the comparison gave something else. *)
Theorem FindInList_sound
  (m : mem) (myList_p : GList) (value_p : operand) (key : Z)
  (data : ptr) (after : GList) :
  FindInList m myList_p value_p key = Ok (data :: after) ->
  exists before,
    myList_p = before ++ data :: after /\
    CompareItemsWithKey_ptr m data value_p key = Ok EQUAL /\
    Forall (fun p => exists r, CompareItemsWithKey_ptr m p value_p key = Ok r /\
                               r <> EQUAL) before.
Proof.
  intros H.
  destruct (FindInList_inv m value_p key myList_p _ H) as (before & E & Hb & Hd).
  exists before. now repeat split.
Qed.

Lemma FindInList_sound_example :
  exists before,
    [Some 1%positive; Some 3%positive] = before ++ [Some 3%positive] /\
    CompareItemsWithKey_ptr
      (mkMem (<[1%positive := Node 7 NULL]> {[3%positive := Node 6 NULL]}) 0)
      (Some 3%positive) (ToInt 6) SINGLEINT = Ok EQUAL /\
    Forall (fun p => exists r,
                CompareItemsWithKey_ptr
                  (mkMem (<[1%positive := Node 7 NULL]>
                            {[3%positive := Node 6 NULL]}) 0)
                  p (ToInt 6) SINGLEINT = Ok r /\ r <> EQUAL) before.
Proof.
  exact (FindInList_sound
           (mkMem (<[1%positive := Node 7 NULL]> {[3%positive := Node 6 NULL]}) 0)
           [Some 1%positive; Some 3%positive] (ToInt 6) SINGLEINT
           (Some 3%positive) [] eq_refl).
Defined.

Lemma FindInList_passes (m : mem) (value_p : operand) (key : Z)
  (ls : list loc) (ds : list myData) (rest : GList) :
  Forall2 (fun l d => load_item m l = Ok d) ls ds ->
  Forall (fun d => exists r, CompareItemsWithKey d value_p key = Ok r /\
                             r <> EQUAL) ds ->
  FindInList m ((Some <$> ls) ++ rest) value_p key =
    FindInList m rest value_p key.
Proof.
  induction 1 as [|l d ls ds Hl _ IH]; intros Hne; [reflexivity|].
  apply Forall_cons in Hne as [(r & Hr & Hneq) Hne].
  cbn [fmap list_fmap app FindInList].
  rewrite (CompareItemsWithKey_ptr_loaded _ _ _ _ _ Hl), Hr.
  cbn [mbind res_bind bind].
  destruct (Z.eqb_spec r 0) as [->|_]; [now contradiction Hneq|].
  now apply IH.
Qed.

(** X9: [FindInList] returns the first match. When the records before a
    node all compare otherwise than EQUAL with the value and the record
    of that node compares EQUAL, the node is returned; nothing after it
    is looked at. *)
Theorem FindInList_first_match
  (m : mem) (value_p : operand) (key : Z)
  (ls : list loc) (ds : list myData) (l : loc) (d : myData) (rest : GList) :
  Forall2 (fun l' d' => load_item m l' = Ok d') ls ds ->
  Forall (fun d' => exists r, CompareItemsWithKey d' value_p key = Ok r /\
                              r <> EQUAL) ds ->
  load_item m l = Ok d ->
  CompareItemsWithKey d value_p key = Ok EQUAL ->
  FindInList m ((Some <$> ls) ++ Some l :: rest) value_p key =
    Ok (Some l :: rest).
Proof.
  intros Hload Hne Hl Heq.
  rewrite (FindInList_passes _ _ _ _ _ _ Hload Hne).
  cbn [FindInList].
  now rewrite (CompareItemsWithKey_ptr_loaded _ _ _ _ _ Hl), Heq.
Qed.

Lemma FindInList_first_match_example :
  FindInList
    (mkMem (<[1%positive := Node 7 (Some 2%positive)]>
              (<[2%positive := Chars "Huey"]>
                 (<[3%positive := Node 6 (Some 4%positive)]>
                    {[4%positive := Chars "Donald"]}))) 0)
    [Some 1%positive; Some 3%positive; NULL] (ToStr "Donald") SINGLESTR =
    Ok [Some 3%positive; NULL].
Proof.
  apply (FindInList_first_match _ (ToStr "Donald") SINGLESTR
           [1%positive] [mkData 7 "Huey"] 3%positive (mkData 6 "Donald") [NULL]).
  - repeat constructor.
  - repeat constructor. exists NOTEQUAL. split; [reflexivity|discriminate].
  - reflexivity.
  - reflexivity.
Defined.

(** X10: looking a string or a number up finds it exactly when it is
    there. On a list of records, [FindInList] with key SINGLESTR returns
    the null list exactly when no record has the string looked for, and
    with key SINGLEINT exactly when no record has the number looked for;
    it never faults on such a list. *)
Theorem FindInList_scalar_lookup
  (m : mem) (ls : list loc) (ds : list myData) :
  Forall2 (fun l d => load_item m l = Ok d) ls ds ->
  (forall s, exists found,
      FindInList m (Some <$> ls) (ToStr s) SINGLESTR = Ok found /\
      (found = [] <-> s ∉ theString <$> ds)) /\
  (forall n, exists found,
      FindInList m (Some <$> ls) (ToInt n) SINGLEINT = Ok found /\
      (found = [] <-> n ∉ number <$> ds)).
Proof.
  intros Hload. split.
  - intros s. induction Hload as [|l d ls ds Hl _ IH].
    + exists []. split; [reflexivity|]. split; [intros _; apply not_elem_of_nil|reflexivity].
    + destruct IH as (found & E & Hfound).
      cbn [fmap list_fmap FindInList].
      rewrite (CompareItemsWithKey_ptr_loaded _ _ _ _ _ Hl).
      unfold CompareItemsWithKey. cbn [Z.eqb INT STR SINGLESTR Pos.eqb].
      destruct (string_dec (theString d) s) as [Heq|Hneq].
      * rewrite Heq, strcmp_refl. cbn [Z.eqb mbind res_bind bind EQUAL].
        eexists. split; [reflexivity|]. split; [discriminate|].
        intros Hnotin. exfalso. apply Hnotin. rewrite <- Heq. apply list_elem_of_here.
      * rewrite (strcmp_nonzero _ _ Hneq). cbn [Z.eqb mbind res_bind bind NOTEQUAL].
        exists found. split; [exact E|]. rewrite Hfound.
        rewrite not_elem_of_cons. split; [intros H; split; congruence|tauto].
  - intros n. induction Hload as [|l d ls ds Hl _ IH].
    + exists []. split; [reflexivity|]. split; [intros _; apply not_elem_of_nil|reflexivity].
    + destruct IH as (found & E & Hfound).
      cbn [fmap list_fmap FindInList].
      rewrite (CompareItemsWithKey_ptr_loaded _ _ _ _ _ Hl).
      unfold CompareItemsWithKey. cbn [Z.eqb INT STR SINGLESTR SINGLEINT Pos.eqb].
      destruct (Z.eqb_spec (number d) n) as [Heq|Hneq].
      * cbn [Z.eqb mbind res_bind bind EQUAL].
        eexists. split; [reflexivity|]. split; [discriminate|].
        intros Hnotin. exfalso. apply Hnotin. rewrite <- Heq. apply list_elem_of_here.
      * cbn [Z.eqb mbind res_bind bind NOTEQUAL].
        exists found. split; [exact E|]. rewrite Hfound.
        rewrite not_elem_of_cons. split; [intros H; split; congruence|tauto].
Qed.

Lemma FindInList_scalar_lookup_example :
  (forall s, exists found,
      FindInList (mkMem (<[1%positive := Node 7 (Some 2%positive)]>
                           {[2%positive := Chars "Huey"]}) 0)
        [Some 1%positive] (ToStr s) SINGLESTR = Ok found /\
      (found = [] <-> s ∉ ["Huey"%string])) /\
  (forall n, exists found,
      FindInList (mkMem (<[1%positive := Node 7 (Some 2%positive)]>
                           {[2%positive := Chars "Huey"]}) 0)
        [Some 1%positive] (ToInt n) SINGLEINT = Ok found /\
      (found = [] <-> n ∉ [7])).
Proof.
  assert (H1 : Forall2
                 (fun l d =>
                    load_item (mkMem (<[1%positive := Node 7 (Some 2%positive)]>
                                        {[2%positive := Chars "Huey"]}) 0) l
                    = Ok d) [1%positive] [mkData 7 "Huey"])
    by repeat constructor.
  exact (FindInList_scalar_lookup _ _ _ H1).
Defined.

(** X11: a key that is none of the four finds nothing: whatever the
    list and the value, also when data pointers are null, [FindInList]
    returns the null list. With one of the four keys a null data pointer
    is read through, which is a fault, where [PrintList] and
    [DestroyList] report a failure. *)
Theorem FindInList_key_and_null_data :
  (forall m myList_p value_p key,
      key <> INT -> key <> STR -> key <> SINGLEINT -> key <> SINGLESTR ->
      FindInList m myList_p value_p key = Ok []) /\
  (forall m rest value_p key,
      key = INT \/ key = STR \/ key = SINGLEINT \/ key = SINGLESTR ->
      FindInList m (NULL :: rest) value_p key = Fault).
Proof.
  split.
  - intros m myList_p value_p key H1 H2 H3 H4.
    apply Z.eqb_neq in H1, H2, H3, H4.
    induction myList_p as [|data next IH]; [reflexivity|].
    cbn [FindInList]. unfold CompareItemsWithKey_ptr.
    rewrite H1, H2, H3, H4. cbn [mbind res_bind bind]. exact IH.
  - intros m rest value_p key [-> | [-> | [-> | ->]]];
      cbn [FindInList]; unfold CompareItemsWithKey_ptr;
      cbn [Z.eqb INT STR SINGLEINT SINGLESTR Pos.eqb];
      now destruct value_p.
Qed.

(** ** The readers and the number of iterations allowed *)

Lemma skip_comment_mono (k : nat) :
  forall fp r k', skip_comment k fp = Some r -> (k <= k')%nat ->
                  skip_comment k' fp = Some r.
Proof.
  induction k as [|k IH]; intros fp r k' H Hk; [discriminate|].
  destruct k' as [|k']; [lia|].
  cbn [skip_comment] in *. destruct (getc fp) as [c fp1].
  destruct (negb (c =? chr "010")); [|assumption].
  apply (IH _ _ _ H). lia.
Qed.

Lemma GetInt_skip_mono (k : nat) :
  forall sign fp r k', GetInt_skip k sign fp = Some r -> (k <= k')%nat ->
                       GetInt_skip k' sign fp = Some r.
Proof.
  induction k as [|k IH]; intros sign fp r k' H Hk; [discriminate|].
  destruct k' as [|k']; [lia|].
  cbn [GetInt_skip] in *. destruct (getc fp) as [c fp1].
  destruct (c =? chr "#").
  - destruct (skip_comment k fp1) as [[c1 fp2]|] eqn:Hs; [|discriminate].
    rewrite (skip_comment_mono _ _ _ k' Hs) by lia.
    destruct (negb (isdigit c1) && negb (feof fp2)); [|assumption].
    apply (IH _ _ _ _ H). lia.
  - destruct (negb (isdigit c) && negb (feof fp1)); [|assumption].
    apply (IH _ _ _ _ H). lia.
Qed.

Lemma GetInt_digits_mono (k : nat) :
  forall c i fp r k', GetInt_digits k c i fp = Some r -> (k <= k')%nat ->
                      GetInt_digits k' c i fp = Some r.
Proof.
  induction k as [|k IH]; intros c i fp r k' H Hk; [discriminate|].
  destruct k' as [|k']; [lia|].
  cbn [GetInt_digits] in *.
  destruct (isdigit c && negb (feof fp)); [|assumption].
  destruct (getc fp) as [c1 fp1]. apply (IH _ _ _ _ _ H). lia.
Qed.

Lemma GetInt_mono (k k' : nat) (fp : FILE) (r : Z * FILE) :
  GetInt k fp = Some r -> (k <= k')%nat -> GetInt k' fp = Some r.
Proof.
  unfold GetInt. intros H Hk.
  destruct (GetInt_skip k 1 fp) as [[[c sg] fp1]|] eqn:Hs; [|discriminate].
  rewrite (GetInt_skip_mono _ _ _ _ k' Hs Hk).
  destruct (feof fp1); [assumption|].
  destruct (GetInt_digits k c 0 fp1) as [[[c' i] fp2]|] eqn:Hd; [|discriminate].
  now rewrite (GetInt_digits_mono _ _ _ _ _ k' Hd Hk).
Qed.

Lemma GetString_skip_mono (k : nat) :
  forall fp r k', GetString_skip k fp = Some r -> (k <= k')%nat ->
                  GetString_skip k' fp = Some r.
Proof.
  induction k as [|k IH]; intros fp r k' H Hk; [discriminate|].
  destruct k' as [|k']; [lia|].
  cbn [GetString_skip] in *. destruct (getc fp) as [c fp1].
  destruct (c =? chr "#").
  - destruct (skip_comment k fp1) as [[c1 fp2]|] eqn:Hs; [|discriminate].
    rewrite (skip_comment_mono _ _ _ k' Hs) by lia.
    destruct (negb (isalpha c1) && negb (feof fp2)); [|assumption].
    apply (IH _ _ _ H). lia.
  - destruct (negb (isalpha c) && negb (feof fp1)); [|assumption].
    apply (IH _ _ _ H). lia.
Qed.

Lemma GetString_fill_mono (k : nat) :
  forall c i buffer fp r k',
    GetString_fill k c i buffer fp = Some r -> (k <= k')%nat ->
    GetString_fill k' c i buffer fp = Some r.
Proof.
  induction k as [|k IH]; intros c i buffer fp r k' H Hk; [discriminate|].
  destruct k' as [|k']; [lia|].
  cbn [GetString_fill] in *.
  destruct (isalpha c && negb (feof fp) && (i <? BUFSIZE)); [|assumption].
  destruct (buffer_store buffer i (to_char c)); [|assumption].
  destruct (getc fp) as [c1 fp1]. apply (IH _ _ _ _ _ _ H). lia.
Qed.

Lemma GetString_mono (k k' : nat) (m : mem) (fp : FILE) (r : res (ptr * mem * FILE)) :
  GetString k m fp = Some r -> (k <= k')%nat -> GetString k' m fp = Some r.
Proof.
  unfold GetString. intros H Hk.
  destruct (GetString_skip k fp) as [[c fp1]|] eqn:Hs; [|discriminate].
  rewrite (GetString_skip_mono _ _ _ k' Hs Hk).
  destruct (feof fp1); [assumption|].
  destruct (GetString_fill k c 0 _ fp1) as [f|] eqn:Hf; [|discriminate].
  now rewrite (GetString_fill_mono _ _ _ _ _ _ k' Hf Hk).
Qed.

(** The comment loop on a text that has a newline: it stops after the
    first one. *)
Lemma skip_comment_to_newline (r : list ascii) :
  "010"%char ∈ r ->
  forall k, (length r <= k)%nat ->
    exists body tail,
      r = body ++ "010"%char :: tail /\
      ("010"%char ∉ body) /\
      skip_comment k (mkFILE r false) = Some (chr "010", mkFILE tail false).
Proof.
  induction r as [|a r IH]; intros Hin k Hk.
  - now apply not_elem_of_nil in Hin.
  - destruct k as [|k]; cbn [length] in Hk; [lia|].
    cbn [skip_comment getc eof_ind unread]. rewrite chr_eqb.
    destruct (Ascii.eqb_spec a "010") as [->|Hne]; cbn [negb].
    + exists [], r. repeat split. apply not_elem_of_nil.
    + apply elem_of_cons in Hin as [Hin|Hin]; [congruence|].
      destruct (IH Hin k) as (body & tail & -> & Hbody & E); [lia|].
      exists (a :: body), tail. repeat split; [|assumption].
      apply not_elem_of_cons. split; [congruence|assumption].
Qed.

Lemma comments_closed_app_r (x y : list ascii) :
  comments_closed (x ++ y) -> comments_closed y.
Proof.
  induction x as [|a x IH]; [trivial|]. intros [_ H]. now apply IH.
Qed.

Lemma GetInt_skip_returns (n : nat) :
  forall fp sign,
    (length (unread fp) < n)%nat ->
    comments_closed (unread fp) ->
    exists c sg fp1,
      GetInt_skip n sign fp = Some (c, sg, fp1) /\
      (length (unread fp1) <= length (unread fp))%nat.
Proof.
  induction n as [|k IH]; intros [un e] sign Hlen Hcc; [lia|].
  cbn [unread] in *. cbn [GetInt_skip]. unfold getc. cbn [eof_ind unread].
  destruct e; [|destruct un as [|a r]].
  - cbn. eauto 6.
  - cbn. eauto 6.
  - cbn [length] in Hlen. destruct Hcc as [Hhash Hcc].
    rewrite chr_eqb. destruct (Ascii.eqb_spec a "#") as [->|Hne].
    + destruct (skip_comment_to_newline r (Hhash eq_refl) k)
        as (body & tail & Hr & _ & E); [lia|].
      rewrite E.
      change (negb (isdigit (chr "010")) && negb (feof (mkFILE tail false)))
        with true. cbn iota.
      assert (Htail : (length tail < length r)%nat)
        by (rewrite Hr, length_app; cbn [length]; lia).
      destruct (IH (mkFILE tail false)
                  (if chr "010" =? chr "-" then -1 else sign))
        as (c & sg & fp1 & E1 & Hl1).
      { cbn [unread]. lia. }
      { cbn [unread]. rewrite Hr in Hcc.
        apply comments_closed_app_r in Hcc. now destruct Hcc. }
      exists c, sg, fp1. split; [exact E1|]. cbn [unread length] in *. lia.
    + destruct (isdigit (chr a)); cbn [negb andb feof eof_ind].
      * do 3 eexists. split; [reflexivity|]. cbn [unread length]. lia.
      * destruct (IH (mkFILE r false) (if chr a =? chr "-" then -1 else sign))
          as (c & sg & fp1 & E1 & Hl1); [cbn [unread]; lia|assumption|].
        exists c, sg, fp1. split; [exact E1|]. cbn [unread length] in *. lia.
Qed.

Lemma GetInt_digits_returns (n : nat) :
  forall c i fp,
    (length (unread fp) + 2 <= n)%nat ->
    exists r, GetInt_digits n c i fp = Some r.
Proof.
  induction n as [|k IH]; intros c i [un e] Hlen; [lia|].
  cbn [unread] in Hlen. cbn [GetInt_digits].
  destruct (isdigit c && negb (feof (mkFILE un e))) eqn:Hcond; [|eauto].
  apply andb_true_iff in Hcond as [_ He]. cbn [feof eof_ind] in He.
  destruct e; [discriminate|].
  unfold getc. cbn [eof_ind unread].
  destruct un as [|a r].
  - destruct k as [|k]; [lia|]. rewrite GetInt_digits_stop by apply isdigit_EOF.
    eauto.
  - apply IH. cbn [unread length] in *. lia.
Qed.

Lemma GetString_skip_returns (n : nat) :
  forall fp,
    (length (unread fp) < n)%nat ->
    comments_closed (unread fp) ->
    exists c fp1,
      GetString_skip n fp = Some (c, fp1) /\
      (length (unread fp1) <= length (unread fp))%nat.
Proof.
  induction n as [|k IH]; intros [un e] Hlen Hcc; [lia|].
  cbn [unread] in *. cbn [GetString_skip]. unfold getc. cbn [eof_ind unread].
  destruct e; [|destruct un as [|a r]].
  - cbn. eauto 6.
  - cbn. eauto 6.
  - cbn [length] in Hlen. destruct Hcc as [Hhash Hcc].
    rewrite chr_eqb. destruct (Ascii.eqb_spec a "#") as [->|Hne].
    + destruct (skip_comment_to_newline r (Hhash eq_refl) k)
        as (body & tail & Hr & _ & E); [lia|].
      rewrite E.
      change (negb (isalpha (chr "010")) && negb (feof (mkFILE tail false)))
        with true. cbn iota.
      assert (Htail : (length tail < length r)%nat)
        by (rewrite Hr, length_app; cbn [length]; lia).
      destruct (IH (mkFILE tail false)) as (c & fp1 & E1 & Hl1).
      { cbn [unread]. lia. }
      { cbn [unread]. rewrite Hr in Hcc.
        apply comments_closed_app_r in Hcc. now destruct Hcc. }
      exists c, fp1. split; [exact E1|]. cbn [unread length] in *. lia.
    + destruct (isalpha (chr a)); cbn [negb andb feof eof_ind].
      * do 2 eexists. split; [reflexivity|]. cbn [unread length]. lia.
      * destruct (IH (mkFILE r false))
          as (c & fp1 & E1 & Hl1); [cbn [unread]; lia|assumption|].
        exists c, fp1. split; [exact E1|]. cbn [unread length] in *. lia.
Qed.

Lemma GetString_fill_returns (n : nat) :
  forall c i buffer fp,
    (length (unread fp) + 2 <= n)%nat ->
    exists r, GetString_fill n c i buffer fp = Some r.
Proof.
  induction n as [|k IH]; intros c i buffer [un e] Hlen; [lia|].
  cbn [unread] in Hlen. cbn [GetString_fill].
  destruct (isalpha c && negb (feof (mkFILE un e)) && (i <? BUFSIZE)) eqn:Hcond;
    [|eauto].
  apply andb_true_iff in Hcond as [Hcond _].
  apply andb_true_iff in Hcond as [_ He]. cbn [feof eof_ind] in He.
  destruct e; [discriminate|].
  destruct (buffer_store buffer i (to_char c)) as [buffer'|]; [|eauto].
  unfold getc. cbn [eof_ind unread].
  destruct un as [|a r].
  - destruct k as [|k]; [lia|]. cbn [GetString_fill].
    change (isalpha EOF) with false. cbn [andb]. eauto.
  - apply IH. cbn [unread length] in *. lia.
Qed.

(** X12: on a text in which a newline follows every [#], [GetInt] and
    [GetString] return, within two iterations more than there are unread
    characters, and with any larger allowance they return the same. *)
Theorem readers_return_when_comments_are_closed (fp : FILE) (fuel : nat) :
  comments_closed (unread fp) ->
  (length (unread fp) + 2 <= fuel)%nat ->
  (exists r, GetInt fuel fp = Some r /\
             forall fuel', (fuel <= fuel')%nat -> GetInt fuel' fp = Some r) /\
  (forall m, exists r,
      GetString fuel m fp = Some r /\
      forall fuel', (fuel <= fuel')%nat -> GetString fuel' m fp = Some r).
Proof.
  intros Hcc Hfuel. split.
  - assert (H : exists r, GetInt fuel fp = Some r).
    { unfold GetInt.
      destruct (GetInt_skip_returns fuel fp 1) as (c & sg & fp1 & E & Hl);
        [lia|assumption|].
      rewrite E. destruct (feof fp1); [eauto|].
      destruct (GetInt_digits_returns fuel c 0 fp1) as [[[c' i] fp2] Ed]; [lia|].
      rewrite Ed. eauto. }
    destruct H as [r Hr]. exists r. split; [assumption|].
    intros fuel'. now apply GetInt_mono.
  - intros m.
    assert (H : exists r, GetString fuel m fp = Some r).
    { unfold GetString.
      destruct (GetString_skip_returns fuel fp) as (c & fp1 & E & Hl);
        [lia|assumption|].
      rewrite E. destruct (feof fp1); [eauto|].
      destruct (GetString_fill_returns fuel c 0
                  (repeat "000"%char (Z.to_nat BUFSIZE)) fp1) as [f Ef]; [lia|].
      rewrite Ef. destruct f as [[[[c' i] buffer1] fp2]|]; [|eauto].
      destruct (buffer_store buffer1 i "000"); [|eauto].
      destruct (strdup m _). eauto. }
    destruct H as [r Hr]. exists r. split; [assumption|].
    intros fuel'. now apply GetString_mono.
Qed.

Lemma readers_return_when_comments_are_closed_example :
  (exists r, GetInt 30 (fopen "# 1 line
-7 Foo") = Some r /\
             forall fuel', (30 <= fuel')%nat ->
                           GetInt fuel' (fopen "# 1 line
-7 Foo") = Some r) /\
  (forall m, exists r,
      GetString 30 m (fopen "# 1 line
-7 Foo") = Some r /\
      forall fuel', (30 <= fuel')%nat ->
                    GetString fuel' m (fopen "# 1 line
-7 Foo") = Some r).
Proof.
  apply (readers_return_when_comments_are_closed (fopen "# 1 line
-7 Foo") 30).
  - cbn. repeat split; try discriminate.
    intros _. rewrite list_elem_of_In. cbn. tauto.
  - cbn. lia.
Defined.

(** ** What the readers skip *)

Lemma skip_comment_body (body tail : list ascii) :
  "010"%char ∉ body ->
  forall k, (length body < k)%nat ->
    skip_comment k (mkFILE (body ++ "010"%char :: tail) false) =
      Some (chr "010", mkFILE tail false).
Proof.
  induction body as [|a body IH]; intros Hnl k Hk;
    (destruct k as [|k]; cbn [length] in Hk; [lia|]);
    cbn [skip_comment app getc eof_ind unread].
  - reflexivity.
  - apply not_elem_of_cons in Hnl as [Ha Hnl].
    rewrite chr_eqb. destruct (Ascii.eqb_spec a "010"); [congruence|].
    cbn [negb]. apply IH; [assumption|lia].
Qed.

(** X13: a comment is skipped whole. A [#], what follows it up to the
    next newline, and that newline change nothing to what [GetInt] and
    [GetString] return: digits, letters and minus signs in the comment
    are not seen. *)
Theorem comment_is_skipped
  (fuel : nat) (body tail : list ascii) :
  "010"%char ∉ body ->
  (length body < fuel)%nat ->
  (forall r, GetInt fuel (mkFILE tail false) = Some r ->
             GetInt (S fuel) (mkFILE ("#"%char :: body ++ "010"%char :: tail) false)
             = Some r) /\
  (forall m r, GetString fuel m (mkFILE tail false) = Some r ->
               GetString (S fuel) m
                 (mkFILE ("#"%char :: body ++ "010"%char :: tail) false)
               = Some r).
Proof.
  intros Hnl Hfuel. split.
  - intros r H. unfold GetInt in *.
    cbn [GetInt_skip getc eof_ind unread].
    change (chr "#" =? chr "#") with true. cbn iota.
    rewrite (skip_comment_body body tail Hnl fuel Hfuel).
    change (chr "010" =? chr "-") with false.
    change (negb (isdigit (chr "010")) && negb (feof (mkFILE tail false)))
      with true. cbn iota.
    destruct (GetInt_skip fuel 1 (mkFILE tail false)) as [[[c sg] fp1]|];
      [|discriminate].
    destruct (feof fp1); [assumption|].
    destruct (GetInt_digits fuel c 0 fp1) as [[[c' i] fp2]|] eqn:Hd;
      [|discriminate].
    now rewrite (GetInt_digits_mono _ _ _ _ _ (S fuel) Hd) by lia.
  - intros m r H. unfold GetString in *.
    cbn [GetString_skip getc eof_ind unread].
    change (chr "#" =? chr "#") with true. cbn iota.
    rewrite (skip_comment_body body tail Hnl fuel Hfuel).
    change (negb (isalpha (chr "010")) && negb (feof (mkFILE tail false)))
      with true. cbn iota.
    destruct (GetString_skip fuel (mkFILE tail false)) as [[c fp1]|];
      [|discriminate].
    destruct (feof fp1); [assumption|].
    destruct (GetString_fill fuel c 0 _ fp1) as [f|] eqn:Hf; [|discriminate].
    now rewrite (GetString_fill_mono _ _ _ _ _ _ (S fuel) Hf) by lia.
Qed.

Lemma comment_is_skipped_example :
  (forall r, GetInt 20 (fopen "42 Hello") = Some r ->
             GetInt 21 (fopen "# -1 x
42 Hello") = Some r) /\
  (forall m r, GetString 20 m (fopen "42 Hello") = Some r ->
               GetString 21 m (fopen "# -1 x
42 Hello") = Some r).
Proof.
  apply (comment_is_skipped 20 (list_ascii_of_string " -1 x")
           (list_ascii_of_string "42 Hello")).
  - rewrite list_elem_of_In. cbn. intros H.
    repeat (destruct H as [H|H]; [discriminate H|]). exact H.
  - cbn. lia.
Defined.

(** The first loop of [GetInt] over a text without digits or comments. *)
Lemma GetInt_skip_to_end (pre : list ascii) :
  forall (sign : Z) (fuel : nat),
    Forall passed_over pre ->
    (length pre < fuel)%nat ->
    exists sg, GetInt_skip fuel sign (mkFILE pre false) =
                 Some (EOF, sg, mkFILE [] true).
Proof.
  induction pre as [|b pre IH]; intros sign fuel Hpre Hfuel;
    (destruct fuel as [|k]; cbn [length] in Hfuel; [lia|]);
    cbn [GetInt_skip getc eof_ind unread].
  - cbn. eauto.
  - apply Forall_cons in Hpre as [[Hb Hhash] Hpre].
    rewrite chr_eqb. destruct (Ascii.eqb_spec b "#") as [|_]; [contradiction|].
    rewrite Hb. cbn [negb feof eof_ind andb].
    apply IH; [assumption|lia].
Qed.

(** X14: the end of the input as [GetInt] reports it. On a text with no
    digit and no comment left, [GetInt] reads all of it and returns EOF
    with the end-of-file indicator set; on a stream whose indicator is
    set it returns EOF at once and leaves the stream as it is, however
    often it is called. *)
Theorem GetInt_end_of_input :
  (forall pre fuel,
      Forall passed_over pre ->
      (length pre < fuel)%nat ->
      GetInt fuel (mkFILE pre false) = Some (EOF, mkFILE [] true) /\
      reads_integer fuel (mkFILE pre false) = false) /\
  (forall fp k,
      eof_ind fp = true ->
      GetInt (S k) fp = Some (EOF, fp) /\
      reads_integer (S k) fp = false).
Proof.
  split.
  - intros pre fuel Hpre Hfuel.
    destruct (GetInt_skip_to_end pre 1 fuel Hpre Hfuel) as [sg E].
    unfold GetInt, reads_integer. now rewrite E.
  - intros [un e] k He. cbn [eof_ind] in He. subst e.
    unfold GetInt, reads_integer. cbn. now split.
Qed.

(** ** The value read *)

Lemma int_wrap_small (v : Z) : - 2 ^ 31 <= v < 2 ^ 31 -> int_wrap v = v.
Proof.
  intros H. unfold int_wrap. rewrite Z.mod_small; lia.
Qed.

Lemma int_wrap_step (v d : Z) :
  int_wrap (int_wrap v * 10 + d) = int_wrap (v * 10 + d).
Proof.
  unfold int_wrap. f_equal.
  pose proof (Z.div_mod (v + 2 ^ 31) (2 ^ 32) ltac:(lia)) as H.
  set (q := (v + 2 ^ 31) / 2 ^ 32) in *.
  set (r := (v + 2 ^ 31) mod 2 ^ 32) in *.
  replace (v * 10 + d + 2 ^ 31)
    with ((r - 2 ^ 31) * 10 + d + 2 ^ 31 + (10 * q) * 2 ^ 32) by lia.
  now rewrite Z_mod_plus_full.
Qed.

Lemma decimal_wraps_value (ds : list ascii) :
  decimal ds = int_wrap (digits_value ds).
Proof.
  unfold decimal, digits_value.
  change 0 with (int_wrap 0) at 1.
  generalize 0 as v. induction ds as [|a ds IH]; intros v; [reflexivity|].
  cbn [fold_left]. unfold digit_step at 2. rewrite int_wrap_step. apply IH.
Qed.

Lemma digits_value_nonneg (ds : list ascii) :
  Forall (fun b => isdigit (chr b) = true) ds -> 0 <= digits_value ds.
Proof.
  unfold digits_value. intros H.
  assert (G : forall v, 0 <= v ->
            0 <= fold_left (fun v a => v * 10 + (chr a - chr "0")) ds v).
  { induction H as [|a ds Ha _ IH]; intros v Hv; [exact Hv|].
    cbn [fold_left]. apply IH.
    apply isdigit_range in Ha. change (chr "0") with 48. lia. }
  now apply G.
Qed.

(** X15: [GetInt] returns the number written. When the characters before
    the digits are neither digits nor the start of a comment, and the
    digits denote a number below 2^31, the result is that number, negated
    when a minus sign is among the characters before it. *)
Theorem GetInt_reads_decimal
  (fuel : nat) (pre : list ascii) (a : ascii) (ds rest : list ascii) :
  Forall passed_over pre ->
  Forall (fun b => isdigit (chr b) = true) (a :: ds) ->
  ends_number rest ->
  digits_value (a :: ds) < 2 ^ 31 ->
  (length pre + length ds + 1 < fuel)%nat ->
  GetInt fuel (mkFILE (pre ++ (a :: ds) ++ rest) false) =
    Some ((if bool_decide ("-"%char ∈ pre)
           then - digits_value (a :: ds) else digits_value (a :: ds)),
          mkFILE (tl rest) (Nat.leb (length rest) 1)).
Proof.
  intros Hpre Hds Hrest Hsmall Hfuel.
  pose proof (digits_value_nonneg _ Hds) as Hpos.
  destruct (GetInt_after_passed_over fuel pre a ds rest Hpre Hds Hrest Hfuel)
    as [_ H].
  rewrite H. rewrite decimal_wraps_value.
  rewrite (int_wrap_small (digits_value (a :: ds))) by lia.
  do 2 f_equal.
  destruct (bool_decide ("-"%char ∈ pre)); rewrite int_wrap_small; lia.
Qed.

Lemma GetInt_reads_decimal_example :
  GetInt 10 (fopen " -2019 x") =
    Some (-2019, mkFILE (list_ascii_of_string "x") false).
Proof.
  apply (GetInt_reads_decimal 10 (list_ascii_of_string " -") "2"
           (list_ascii_of_string "019") (list_ascii_of_string " x")).
  - repeat constructor; discriminate.
  - repeat constructor.
  - reflexivity.
  - reflexivity.
  - cbn. lia.
Defined.

(** ** Reading a word *)

Lemma alpha_not_NUL (a : ascii) : isalpha (chr a) = true -> a <> "000"%char.
Proof. intros H ->. discriminate H. Qed.

Lemma isalpha_EOF : isalpha EOF = false.
Proof. reflexivity. Qed.

Lemma getc_ends_word (rest : list ascii) :
  ends_word rest -> isalpha (fst (getc (mkFILE rest false))) = false.
Proof. destruct rest as [|d r]; [reflexivity | exact (fun H => H)]. Qed.

(** The first loop of [GetString] over characters that are neither
    letters nor the start of a comment. *)
Lemma GetString_skip_passed_by (pre : list ascii) :
  forall (a : ascii) (rest : list ascii) (fuel : nat),
    Forall passed_by_word pre ->
    isalpha (chr a) = true ->
    (length pre < fuel)%nat ->
    GetString_skip fuel (mkFILE (pre ++ a :: rest) false) =
      Some (chr a, mkFILE rest false).
Proof.
  induction pre as [|b pre IH]; intros a rest fuel Hpre Ha Hfuel;
    (destruct fuel as [|k]; cbn [length] in Hfuel; [lia|]);
    cbn [GetString_skip app getc eof_ind unread].
  - now rewrite (alpha_not_hash _ Ha), Ha.
  - apply Forall_cons in Hpre as [[Hb Hhash] Hpre].
    rewrite chr_eqb. destruct (Ascii.eqb_spec b "#") as [|_]; [contradiction|].
    rewrite Hb. cbn [negb feof eof_ind andb].
    apply IH; [assumption..|lia].
Qed.

Lemma GetString_skip_to_end (pre : list ascii) :
  forall fuel : nat,
    Forall passed_by_word pre ->
    (length pre < fuel)%nat ->
    GetString_skip fuel (mkFILE pre false) = Some (EOF, mkFILE [] true).
Proof.
  induction pre as [|b pre IH]; intros fuel Hpre Hfuel;
    (destruct fuel as [|k]; cbn [length] in Hfuel; [lia|]);
    cbn [GetString_skip getc eof_ind unread].
  - reflexivity.
  - apply Forall_cons in Hpre as [[Hb Hhash] Hpre].
    rewrite chr_eqb. destruct (Ascii.eqb_spec b "#") as [|_]; [contradiction|].
    rewrite Hb. cbn [negb feof eof_ind andb].
    apply IH; [assumption|lia].
Qed.

(** One store of the accumulation loop: the element after the ones
    written so far. *)
Lemma buffer_store_next (done tail : list ascii) (t v : ascii) :
  (length (done ++ t :: tail) = Z.to_nat BUFSIZE)%nat ->
  buffer_store (done ++ t :: tail) (Z.of_nat (length done)) v =
    Ok ((done ++ [v]) ++ tail).
Proof.
  intros Hlen. rewrite buffer_store_inside.
  - rewrite Nat2Z.id. rewrite insert_app_r_alt by lia.
    rewrite Nat.sub_diag. cbn [insert list_insert]. now rewrite <- app_assoc.
  - rewrite length_app in *. cbn [length] in *. lia.
Qed.

(** The accumulation loop of [GetString] on a word that fits. *)
Lemma GetString_fill_word (w : list ascii) :
  forall (a : ascii) (done tail rest : list ascii) (fuel : nat),
    isalpha (chr a) = true ->
    Forall (fun b => isalpha (chr b) = true) w ->
    ends_word rest ->
    (length (done ++ tail) = Z.to_nat BUFSIZE)%nat ->
    (length done + 1 + length w < Z.to_nat BUFSIZE)%nat ->
    (length w + 1 < fuel)%nat ->
    GetString_fill fuel (chr a) (Z.of_nat (length done)) (done ++ tail)
      (mkFILE (w ++ rest) false) =
      Some (Ok (fst (getc (mkFILE rest false)),
                Z.of_nat (length (done ++ a :: w)),
                (done ++ a :: w) ++ drop (1 + length w) tail,
                snd (getc (mkFILE rest false)))).
Proof.
  induction w as [|b w IH];
    intros a done tail rest fuel Ha Hw Hrest Hlen Hfit Hfuel.
  - destruct fuel as [|[|k]]; cbn [length] in Hfuel; [lia|lia|].
    destruct tail as [|t tail];
      [rewrite app_nil_r in Hlen; cbn [length] in Hfit; lia|].
    cbn [GetString_fill app]. rewrite Ha. cbn [feof eof_ind negb andb].
    assert (Hi : (Z.of_nat (length done) <? BUFSIZE) = true).
    { apply Z.ltb_lt. unfold BUFSIZE in *. cbn [length] in Hfit. lia. }
    rewrite Hi. rewrite to_char_chr, (buffer_store_next _ _ _ _ Hlen).
    destruct (getc (mkFILE rest false)) as [c fp] eqn:E.
    pose proof (getc_ends_word rest Hrest) as Hc. rewrite E in Hc.
    cbn [fst snd] in *. rewrite Hc. cbn [andb drop length Nat.add].
    replace (Z.of_nat (length (done ++ [a]))) with (Z.of_nat (length done) + 1)
      by (rewrite length_app; cbn [length]; lia).
    reflexivity.
  - destruct fuel as [|k]; cbn [length] in Hfuel; [lia|].
    destruct tail as [|t tail];
      [rewrite app_nil_r in Hlen; cbn [length] in Hfit; lia|].
    apply Forall_cons in Hw as [Hb Hw].
    cbn [GetString_fill app]. rewrite Ha. cbn [feof eof_ind negb andb].
    assert (Hi : (Z.of_nat (length done) <? BUFSIZE) = true).
    { apply Z.ltb_lt. unfold BUFSIZE in *. cbn [length] in Hfit. lia. }
    rewrite Hi. rewrite to_char_chr, (buffer_store_next _ _ _ _ Hlen).
    cbn [getc eof_ind unread].
    replace (Z.of_nat (length done) + 1) with (Z.of_nat (length (done ++ [a])))
      by (rewrite length_app; cbn [length]; lia).
    rewrite (IH b (done ++ [a]) tail rest k); try assumption.
    + replace ((done ++ [a]) ++ b :: w) with (done ++ a :: b :: w)
        by now rewrite <- app_assoc.
      reflexivity.
    + rewrite !length_app in *. cbn [length] in *. lia.
    + rewrite length_app. cbn [length] in *. lia.
    + lia.
Qed.

(** The C string in an array that holds letters and then a terminator. *)
Lemma c_string_word (w tail : list ascii) :
  Forall (fun b => isalpha (chr b) = true) w ->
  c_string (w ++ "000"%char :: tail) = string_of_list_ascii w.
Proof.
  induction 1 as [|b w Hb _ IH]; [reflexivity|].
  cbn [app c_string string_of_list_ascii].
  destruct (Ascii.eqb_spec b "000") as [E|_]; [now apply alpha_not_NUL in Hb|].
  now rewrite IH.
Qed.

(** [GetString] on characters passed over, then a word of fewer than
    BUFSIZE letters, then a rest that does not go on with a letter. *)
Lemma GetString_word
  (fuel : nat) (m : mem) (pre : list ascii) (a : ascii) (w rest : list ascii) :
  Forall passed_by_word pre ->
  Forall (fun b => isalpha (chr b) = true) (a :: w) ->
  ends_word rest ->
  (length (a :: w) < Z.to_nat BUFSIZE)%nat ->
  (length pre + length w + 1 < fuel)%nat ->
  GetString fuel m (mkFILE (pre ++ (a :: w) ++ rest) false) =
    Some (Ok (fst (strdup m (string_of_list_ascii (a :: w))),
              snd (strdup m (string_of_list_ascii (a :: w))),
              mkFILE (tl rest) (Nat.leb (length rest) 1))).
Proof.
  intros Hpre Hw Hrest Hfit Hfuel.
  pose proof Hw as Haw. apply Forall_cons in Hw as [Ha Hw].
  unfold GetString. cbn [app].
  rewrite GetString_skip_passed_by by (assumption || lia).
  cbn [feof eof_ind].
  pose proof (GetString_fill_word w a [] (repeat "000"%char (Z.to_nat BUFSIZE))
                rest fuel Ha Hw Hrest) as Hfill.
  change (Z.of_nat (length (@nil ascii))) with 0 in Hfill.
  cbn [app length] in Hfill. rewrite Hfill; clear Hfill;
    [|apply repeat_length|cbn [length] in Hfit; lia|lia].
  set (n := (1 + length w)%nat).
  assert (Htail : exists t tail,
             drop n (repeat "000"%char (Z.to_nat BUFSIZE)) = t :: tail).
  { destruct (drop n (repeat "000"%char (Z.to_nat BUFSIZE))) as [|t tail] eqn:E;
      [|eauto].
    apply (f_equal length) in E. rewrite length_drop, repeat_length in E.
    cbn [length] in E, Hfit. subst n. lia. }
  destruct Htail as (t & tail & Htail). rewrite Htail.
  change (a :: w ++ t :: tail) with ((a :: w) ++ t :: tail).
  rewrite buffer_store_next.
  - rewrite <- app_assoc.
    change (["000"%char] ++ tail) with ("000"%char :: tail).
    cbn iota. rewrite (c_string_word (a :: w) tail Haw).
    rewrite peek_after_number. unfold after_number.
    now destruct (strdup m (string_of_list_ascii (a :: w))).
  - apply (f_equal length) in Htail.
    rewrite length_drop, repeat_length in Htail.
    rewrite length_app. cbn [length] in *. subst n. lia.
Qed.

(** X16: [GetString] returns the word written. When the characters
    before it are neither letters nor the start of a comment, the word
    has fewer than BUFSIZE letters and memory is left, the result points
    to a block that was free and now holds exactly the letters of the
    word; the character after the word is read and not given back. *)
Theorem GetString_reads_word
  (fuel : nat) (m : mem) (pre : list ascii) (a : ascii) (w rest : list ascii)
  (k : nat) :
  Forall passed_by_word pre ->
  Forall (fun b => isalpha (chr b) = true) (a :: w) ->
  ends_word rest ->
  (length (a :: w) < Z.to_nat BUFSIZE)%nat ->
  (length pre + length w + 1 < fuel)%nat ->
  room m = S k ->
  exists l,
    blocks m !! l = None /\
    GetString fuel m (mkFILE (pre ++ (a :: w) ++ rest) false) =
      Some (Ok (Some l,
                mkMem (<[l := Chars (string_of_list_ascii (a :: w))]> (blocks m)) k,
                mkFILE (tl rest) (Nat.leb (length rest) 1))).
Proof.
  intros Hpre Hw Hrest Hfit Hfuel Hroom.
  rewrite (GetString_word fuel m pre a w rest Hpre Hw Hrest Hfit Hfuel).
  unfold strdup.
  destruct (malloc_some m (Chars (string_of_list_ascii (a :: w))) k Hroom)
    as (l & Hl & E).
  rewrite E. exists l. now split.
Qed.

Lemma GetString_reads_word_example :
  exists l,
    (∅ : gmap positive block) !! l = None /\
    GetString 10 (mkMem ∅ 1) (fopen "42 Hello
") =
      Some (Ok (Some l, mkMem (<[l := Chars "Hello"]> ∅) 0, mkFILE [] true)).
Proof.
  apply (GetString_reads_word 10 (mkMem ∅ 1) (list_ascii_of_string "42 ")
           "H" (list_ascii_of_string "ello") ["010"%char] 0).
  - repeat constructor; discriminate.
  - repeat constructor.
  - reflexivity.
  - apply Nat.ltb_lt. reflexivity.
  - cbn. lia.
  - reflexivity.
Defined.

(** X17: a null result of [GetString] does not tell the end of the input
    from a failed allocation. On a text with no letter and no comment
    left it returns NULL with the end-of-file indicator set and the
    memory untouched; on a text that holds a word, when no memory is
    left, it reads the word and returns NULL as well. *)
Theorem GetString_null_result :
  (forall fuel m pre,
      Forall passed_by_word pre ->
      (length pre < fuel)%nat ->
      GetString fuel m (mkFILE pre false) = Some (Ok (NULL, m, mkFILE [] true))) /\
  (forall fuel m pre a w rest,
      Forall passed_by_word pre ->
      Forall (fun b => isalpha (chr b) = true) (a :: w) ->
      ends_word rest ->
      (length (a :: w) < Z.to_nat BUFSIZE)%nat ->
      (length pre + length w + 1 < fuel)%nat ->
      room m = O ->
      GetString fuel m (mkFILE (pre ++ (a :: w) ++ rest) false) =
        Some (Ok (NULL, m, mkFILE (tl rest) (Nat.leb (length rest) 1)))).
Proof.
  split.
  - intros fuel m pre Hpre Hfuel. unfold GetString.
    now rewrite (GetString_skip_to_end pre fuel Hpre Hfuel).
  - intros fuel m pre a w rest Hpre Hw Hrest Hfit Hfuel Hroom.
    rewrite (GetString_word fuel m pre a w rest Hpre Hw Hrest Hfit Hfuel).
    unfold strdup. now rewrite (malloc_null _ _ Hroom).
Qed.

(** X18: a number and then a word. After [GetInt] has read a number,
    the character that followed its last digit is gone, whatever it was,
    and [GetString] returns the word that starts right after that
    character: a word that is separated from the number by one character
    is read whole, and a word written directly after the number would
    lose its first letter. *)
Theorem GetInt_then_GetString
  (fuel : nat) (m : mem) (pre : list ascii) (a : ascii) (ds : list ascii)
  (c b : ascii) (w rest : list ascii) (k : nat) :
  Forall passed_over pre ->
  Forall (fun x => isdigit (chr x) = true) (a :: ds) ->
  isdigit (chr c) = false ->
  Forall (fun x => isalpha (chr x) = true) (b :: w) ->
  ends_word rest ->
  (length (b :: w) < Z.to_nat BUFSIZE)%nat ->
  (length pre + length ds + length w + 1 < fuel)%nat ->
  room m = S k ->
  exists fp' l,
    GetInt fuel (mkFILE (pre ++ (a :: ds) ++ c :: (b :: w) ++ rest) false) =
      Some (int_wrap (decimal (a :: ds) *
                      (if bool_decide ("-"%char ∈ pre) then -1 else 1)), fp') /\
    unread fp' = (b :: w) ++ rest /\
    blocks m !! l = None /\
    GetString fuel m fp' =
      Some (Ok (Some l,
                mkMem (<[l := Chars (string_of_list_ascii (b :: w))]> (blocks m)) k,
                mkFILE (tl rest) (Nat.leb (length rest) 1))).
Proof.
  intros Hpre Hds Hc Hw Hrest Hfit Hfuel Hroom.
  destruct (GetInt_after_passed_over fuel pre a ds (c :: (b :: w) ++ rest)
              Hpre Hds Hc) as [_ Hint]; [lia|].
  exists (mkFILE ((b :: w) ++ rest) false).
  pose proof (GetString_word fuel m [] b w rest (Forall_nil_2 _) Hw Hrest Hfit)
    as Hstr.
  cbn [app length] in Hstr.
  destruct (malloc_some m (Chars (string_of_list_ascii (b :: w))) k Hroom)
    as (l & Hl & E).
  exists l. split; [exact Hint|]. split; [reflexivity|]. split; [assumption|].
  cbn [app]. rewrite Hstr by lia. unfold strdup. now rewrite E.
Qed.

Lemma GetInt_then_GetString_example :
  exists fp' l,
    GetInt 10 (fopen "-7 Foo
") = Some (-7, fp') /\
    unread fp' = list_ascii_of_string "Foo
" /\
    (∅ : gmap positive block) !! l = None /\
    GetString 10 (mkMem ∅ 1) fp' =
      Some (Ok (Some l, mkMem (<[l := Chars "Foo"]> ∅) 0, mkFILE [] true)).
Proof.
  apply (GetInt_then_GetString 10 (mkMem ∅ 1) ["-"%char] "7" [] " " "F"
           (list_ascii_of_string "oo") ["010"%char] 0).
  - repeat constructor; discriminate.
  - repeat constructor.
  - reflexivity.
  - repeat constructor.
  - reflexivity.
  - apply Nat.ltb_lt. reflexivity.
  - cbn. lia.
  - reflexivity.
Defined.

(** ** The loop that reads the test data *)

Lemma blank_passed_over (pre : list ascii) :
  Forall blank pre -> Forall passed_over pre.
Proof.
  intros H. eapply Forall_impl; [exact H|]. intros a (Hd & _ & Hh). now split.
Qed.

Lemma blank_passed_by_word (pre : list ascii) :
  Forall blank pre -> Forall passed_by_word pre.
Proof.
  intros H. eapply Forall_impl; [exact H|]. intros a (_ & Ha & Hh). now split.
Qed.

(** X19: how the reading loop of [main] ends. It stops with the list
    read so far once the end-of-file indicator is set. When the text left
    holds neither digit, letter nor comment and the indicator is not set
    (an empty file, or anything more than one character after the last
    word), the loop runs once more: [GetInt] returns EOF, [GetString]
    returns NULL, and [NewItem] is called with that null string, which
    [strdup] reads through. *)
Theorem read_loop_end :
  (forall k m fp theList_p,
      eof_ind fp = true ->
      read_loop (S k) m fp theList_p = Some (Ok (theList_p, m, fp))) /\
  (forall fuel m pre theList_p,
      Forall blank pre ->
      (length pre + 2 < fuel)%nat ->
      read_loop fuel m (mkFILE pre false) theList_p = Some Fault).
Proof.
  split.
  - intros k m fp theList_p He. cbn [read_loop]. unfold feof. now rewrite He.
  - intros fuel m pre theList_p Hpre Hfuel.
    destruct fuel as [|[|k]]; [lia|lia|].
    cbn [read_loop feof eof_ind negb].
    assert (Hint : GetInt (S k) (mkFILE pre false) = Some (EOF, mkFILE [] true)).
    { unfold GetInt.
      destruct (GetInt_skip_to_end pre 1 (S k) (blank_passed_over _ Hpre))
        as [sg E]; [lia|]. now rewrite E. }
    rewrite Hint. reflexivity.
Qed.

(** X20: one turn of the reading loop. On a number, one character, and
    a word, with room for three blocks, the turn adds one record to the
    end of the list, made of the number and the word, and goes on with
    the text after the character that follows the word. It obtains three
    blocks: the string [GetString] returns, the record and the record's
    own copy of the string; the first of them is not released and nothing
    in the list points to it. *)
Theorem read_loop_one_record
  (fuel : nat) (m : mem) (pre : list ascii) (a : ascii) (ds : list ascii)
  (c b : ascii) (w rest : list ascii) (theList_p : GList) (k : nat) :
  Forall passed_over pre ->
  Forall (fun x => isdigit (chr x) = true) (a :: ds) ->
  isdigit (chr c) = false ->
  Forall (fun x => isalpha (chr x) = true) (b :: w) ->
  ends_word rest ->
  (length (b :: w) < Z.to_nat BUFSIZE)%nat ->
  (length pre + length ds + length w + 1 < fuel)%nat ->
  room m = S (S (S k)) ->
  exists p node q,
    blocks m !! p = None /\ blocks m !! node = None /\ blocks m !! q = None /\
    p <> node /\ p <> q /\ node <> q /\
    read_loop (S fuel) m
      (mkFILE (pre ++ (a :: ds) ++ c :: (b :: w) ++ rest) false) theList_p =
    read_loop fuel
      (mkMem (<[node := Node (int_wrap (decimal (a :: ds) *
                                (if bool_decide ("-"%char ∈ pre) then -1 else 1)))
                             (Some q)]>
                (<[q := Chars (string_of_list_ascii (b :: w))]>
                   (<[p := Chars (string_of_list_ascii (b :: w))]> (blocks m))))
             k)
      (mkFILE (tl rest) (Nat.leb (length rest) 1))
      (theList_p ++ [Some node]).
Proof.
  intros Hpre Hds Hc Hw Hrest Hfit Hfuel Hroom.
  destruct (GetInt_after_passed_over fuel pre a ds (c :: (b :: w) ++ rest)
              Hpre Hds Hc) as [_ Hint]; [lia|].
  pose proof (GetString_word fuel m [] b w rest (Forall_nil_2 _) Hw Hrest Hfit)
    as Hstr.
  cbn [app length] in Hstr.
  set (word := string_of_list_ascii (b :: w)) in *.
  destruct (malloc_some m (Chars word) _ Hroom) as (p & Hp & Ep).
  set (m1 := mkMem (<[p := Chars word]> (blocks m)) (S (S k))) in *.
  destruct (NewItem_room2 m1
              (int_wrap (decimal (a :: ds) *
                 (if bool_decide ("-"%char ∈ pre) then -1 else 1))) word k eq_refl)
    as (node & q & Hnode & Hq & Hnq & EN).
  subst m1. cbn [blocks] in Hnode, Hq, EN.
  apply lookup_insert_None in Hnode as [Hnode Hpn].
  apply lookup_insert_None in Hq as [Hq Hpq].
  exists p, node, q. repeat split; try assumption.
  cbn [read_loop feof eof_ind negb]. rewrite Hint.
  unfold after_number. cbn [tl length Nat.leb app].
  cbn [app] in Hstr. rewrite Hstr by lia.
  unfold strdup. rewrite Ep. cbn [fst snd get_chars blocks].
  rewrite lookup_insert_eq. now rewrite EN.
Qed.

Lemma read_loop_one_record_example :
  exists p node q,
    (∅ : gmap positive block) !! p = None /\
    (∅ : gmap positive block) !! node = None /\
    (∅ : gmap positive block) !! q = None /\
    p <> node /\ p <> q /\ node <> q /\
    read_loop 11 (mkMem ∅ 3) (fopen "-7 Foo
") [] =
    read_loop 10
      (mkMem (<[node := Node (-7) (Some q)]>
                (<[q := Chars "Foo"]> (<[p := Chars "Foo"]> ∅))) 0)
      (mkFILE [] true) [Some node].
Proof.
  apply (read_loop_one_record 10 (mkMem ∅ 3) ["-"%char] "7" [] " " "F"
           (list_ascii_of_string "oo") ["010"%char] [] 0).
  - repeat constructor; discriminate.
  - repeat constructor.
  - reflexivity.
  - repeat constructor.
  - reflexivity.
  - apply Nat.ltb_lt. reflexivity.
  - cbn. lia.
  - reflexivity.
Defined.

(** ** The copy and the source are independent *)





